(** * COB demo agent: the turn orchestration engine, embedded and verified

    Shallow embedding of
    - [cob_demo_agent/utils/errors.py]        (error classifier),
    - [cob_demo_agent/sre/langgraph_app.py]   (stage functions and graph wiring),
    - [cob_demo_agent/sre/graph_service.py]   (invocation service with retry),
    - [cob_demo_agent/routes/chat.py]         (HTTP route),
    - [cob_demo_agent/sre/booking_agent/tools.py] (appointment store).

    Texts are Rocq [string]s holding the UTF-8 bytes of the Python [str].
    [strip] removes every character for which [str.isspace()] holds, in
    its UTF-8 form. [lower] maps the letters A-Z and leaves the other
    bytes alone: the classifier searches ASCII signals only, and the two
    characters outside ASCII whose lower case holds an ASCII letter (U+212A
    gives k, U+0130 gives i followed by U+0307) cannot complete a signal,
    since no signal has a k or ends in i. Logging and timing, which change
    no result, are left out except for the [node_enter] lines, which are
    kept as the list of the nodes run. *)

From Stdlib Require Import ZArith QArith Floats Ascii String Lia.
From stdpp Require Import base option list strings pretty gmap.

Local Open Scope string_scope.
Local Open Scope Z_scope.

(** ** Python string primitives *)
Module Str.

(** ['A' <= c <= 'Z'] *)
Definition is_upper (c : ascii) : bool :=
  let n := nat_of_ascii c in (65 <=? n)%nat && (n <=? 90)%nat.

Definition lower_char (c : ascii) : ascii :=
  if is_upper c then ascii_of_nat (nat_of_ascii c + 32) else c.

(** [s.lower()] *)
Fixpoint lower (s : string) : string :=
  match s with
  | EmptyString => EmptyString
  | String c r => String (lower_char c) (lower r)
  end.

(** [s.startswith(p)] *)
Fixpoint startswith (p s : string) : bool :=
  match p, s with
  | EmptyString, _ => true
  | String _ _, EmptyString => false
  | String a p', String b s' => if Ascii.eqb a b then startswith p' s' else false
  end.

(** [sub in s] *)
Fixpoint contains (sub s : string) : bool :=
  startswith sub s ||
  match s with
  | EmptyString => false
  | String _ r => contains sub r
  end.

(** The text made of the bytes with the given codes. *)
Definition text_of_bytes (l : list nat) : string :=
  fold_right (fun n s => String (ascii_of_nat n) s) EmptyString l.

(** The characters [c] with [c.isspace()], in UTF-8: U+0009 to U+000D,
    U+001C to U+0020, U+0085, U+00A0, U+1680, U+2000 to U+200A, U+2028,
    U+2029, U+202F, U+205F and U+3000. *)
Definition WHITESPACE : list string :=
  map text_of_bytes
    [[9]; [10]; [11]; [12]; [13]; [28]; [29]; [30]; [31]; [32];
     [194; 133]; [194; 160];
     [225; 154; 128];
     [226; 128; 128]; [226; 128; 129]; [226; 128; 130]; [226; 128; 131];
     [226; 128; 132]; [226; 128; 133]; [226; 128; 134]; [226; 128; 135];
     [226; 128; 136]; [226; 128; 137]; [226; 128; 138];
     [226; 128; 168]; [226; 128; 169]; [226; 128; 175];
     [226; 129; 159];
     [227; 128; 128]]%nat.

(** [c.isspace()] of the character whose UTF-8 bytes are [c]. *)
Definition isspace (c : string) : bool :=
  List.existsb (String.eqb c) WHITESPACE.

(** [s.lstrip()]: a whitespace character is one, two or three bytes long. *)
Fixpoint lstrip (s : string) : string :=
  match s with
  | EmptyString => EmptyString
  | String a r =>
      if isspace (String a EmptyString) then lstrip r
      else
        match r with
        | EmptyString => s
        | String b r2 =>
            if isspace (String a (String b EmptyString)) then lstrip r2
            else
              match r2 with
              | EmptyString => s
              | String c r3 =>
                  if isspace (String a (String b (String c EmptyString)))
                  then lstrip r3
                  else s
              end
        end
  end.

(** [s] is made of whitespace characters only (the empty text is). *)
Fixpoint blank (s : string) : bool :=
  match s with
  | EmptyString => true
  | String a r =>
      if isspace (String a EmptyString) then blank r
      else
        match r with
        | EmptyString => false
        | String b r2 =>
            if isspace (String a (String b EmptyString)) then blank r2
            else
              match r2 with
              | EmptyString => false
              | String c r3 =>
                  if isspace (String a (String b (String c EmptyString)))
                  then blank r3
                  else false
              end
        end
  end.

(** [s.rstrip()]: a byte is dropped when only whitespace follows from it
    on. In UTF-8 no whitespace character starts with a continuation byte,
    so the cut never falls inside a character. *)
Fixpoint rstrip (s : string) : string :=
  match s with
  | EmptyString => EmptyString
  | String c r => if blank s then EmptyString else String c (rstrip r)
  end.

(** [s.strip()] *)
Definition strip (s : string) : string := rstrip (lstrip s).

(** Python truthiness of a [str]. *)
Definition truthy (s : string) : bool :=
  match s with EmptyString => false | _ => true end.

End Str.

(** ** [cob_demo_agent/utils/errors.py] *)

(** An exception object: its class name and [str(exc)]. *)
Record Exn := mkExn { exn_class : string; exn_str : string }.

Record ErrorInfo := mkErrorInfo {
  kind : string;
  message : string;
  status_code : Z;
  retryable : bool;
  raw : option string;
}.

Definition classify_exception (exc : Exn) : ErrorInfo :=
  let msg := exn_str exc in
  let low := Str.lower msg in
  if Str.contains "resource exhausted" low || Str.contains "quota" low
     || Str.contains "rate limit" low || Str.contains "429" low
  then mkErrorInfo "MODEL_QUOTA_EXCEEDED"
         "Model quota/rate limit exceeded. Please retry later." 429 true (Some msg)
  else if Str.contains "timeout" low || Str.contains "timed out" low
     || Str.contains "temporarily unavailable" low || Str.contains "503" low
  then mkErrorInfo "TRANSIENT_UPSTREAM_ERROR"
         "Upstream service temporarily unavailable. Please retry." 503 true (Some msg)
  else if Str.contains "invalid" low || Str.contains "bad request" low
     || Str.contains "400" low
  then mkErrorInfo "UPSTREAM_BAD_REQUEST"
         "Upstream rejected the request (invalid input/config)." 400 false (Some msg)
  else mkErrorInfo "INTERNAL_ERROR" "Unexpected server error." 500 false (Some msg).


(** ** A state-and-exception monad for the effectful stage code

    Every call to a generation collaborator, the retriever, the tool executor
    or [uuid.uuid4] reads and changes the outside world; a computation is a
    function of the world that returns a value or the raised exception,
    together with the new world. *)
Definition M (S A : Type) : Type := S -> (Exn + A) * S.

Definition ret {S A} (a : A) : M S A := fun s => (inr a, s).
Definition raise {S A} (e : Exn) : M S A := fun s => (inl e, s).
Definition bind {S A B} (c : M S A) (k : A -> M S B) : M S B :=
  fun s => match c s with
           | (inl e, s') => (inl e, s')
           | (inr a, s') => k a s'
           end.

Notation "'let!' x ':=' c 'in' k" := (bind c (fun x => k))
  (at level 10, x name, c at level 200, k at level 200, only parsing).

Definition KeyError (key : string) : Exn := mkExn "KeyError" ("'" ++ key ++ "'").
Definition IndexError : Exn := mkExn "IndexError" "list index out of range".
Definition TypeError : Exn :=
  mkExn "TypeError" "exceptions must derive from BaseException".

(** ** [cob_demo_agent/sre/rag_agent/models.py] *)

Inductive Route := general | kb | booking | handoff.

Definition Route_eqb (a b : Route) : bool :=
  match a, b with
  | general, general | kb, kb | booking, booking | handoff, handoff => true
  | _, _ => false
  end.

Record RouterDecision := mkRouterDecision {
  rd_route : Route;
  rd_reply : string;
  rd_confidence : float;
}.

Record MetaChunk := mkMetaChunk {
  mc_id : string;
  mc_title : string;
  mc_category : string;
  mc_source_file : string;
  mc_paragraph_index : Z;
}.

Record StructuredResponseRAG := mkStructuredResponseRAG {
  answer : string;
  meta : list MetaChunk;
}.

Record HandoffDecision := mkHandoffDecision {
  hd_handoff_required : bool;
  hd_reason : string;
  hd_reply : string;
}.

(** ** Messages and the conversation state of [langgraph_app.py] *)

(** The argument object of a proposed tool call. *)
#[warnings="-register-all"]
Inductive Json :=
| JNull
| JBool (b : bool)
| JInt (z : Z)
| JString (s : string)
| JList (l : list Json)
| JDict (kv : list (string * Json)).

Record ToolCall := mkToolCall {
  tc_name : string;
  tc_args : option Json;      (* [tc.get("args", {})] *)
  tc_id : string;
}.

Inductive MessageType := HumanMessage | AIMessage | SystemMessage | ToolMessage.

Record Message := mkMessage {
  msg_type : MessageType;
  content : string;
  tool_calls : list ToolCall;
  additional_kwargs : list string;   (* the ["rag_meta_ids"] entry *)
  msg_id : option string;
}.

Definition Human (text : string) : Message := mkMessage HumanMessage text [] [] None.
Definition AI (text : string) : Message := mkMessage AIMessage text [] [] None.
Definition System (text : string) : Message := mkMessage SystemMessage text [] [] None.

Definition is_human (m : Message) : bool :=
  match msg_type m with HumanMessage => true | _ => false end.
Definition is_ai (m : Message) : bool :=
  match msg_type m with AIMessage => true | _ => false end.

(** [isinstance(m, AIMessage) and getattr(m, "tool_calls", None)] *)
Definition has_tool_calls (m : Message) : bool :=
  is_ai m && match tool_calls m with [] => false | _ => true end.

(** The [State] TypedDict. A state and the partial update a stage returns are
    both Python dicts over these keys, so one record serves for both: [None]
    is an absent key. *)
Record State := mkState {
  messages : option (list Message);
  route : option Route;
  rag_meta_ids : option (list string);
  handoff_required : option bool;
  handoff_reason : option string;
  booking_tool_steps : option Z;
  last_tool_signature : option string;
  repeat_tool_count : option Z;
}.

Definition empty_dict : State := mkState None None None None None None None None.

(** [state.get(key, default)] *)
Definition get {A} (field : option A) (dflt : A) : A := default dflt field.

(** ** The collaborators of one process *)
Record Document := mkDocument { page_content : string }.

Record Env (W : Type) := mkEnv {
  ROUTER_PROMPT : string;
  RAG_PROMPT : string;
  BOOKING_PROMPT : string;
  HANDOFF_PROMPT : string;
  router_llm : list Message -> M W RouterDecision;
  rag_llm_tools : list Message -> M W StructuredResponseRAG;
  booking_llm : list Message -> M W Message;
  handoff_llm : list Message -> M W HandoffDecision;
  retriever : string -> M W (list Document);
  (** [ToolNode(tools=BOOKING_TOOLS).invoke(state)["messages"]] *)
  tool_node : State -> M W (list Message);
  (** [json.dumps(args, sort_keys=True)] *)
  json_dumps_sorted : Json -> string;
  (** [str(uuid.uuid4())] *)
  uuid4 : W -> string * W;
  (** [int(get_env("COB_MAX_TOOL_STEPS", "4") or "4")] *)
  MAX_TOOL_STEPS : Z;
  (** [int(get_env("COB_MAX_RETRIES", "1") or "1")] *)
  MAX_RETRIES : Z;
}.
Arguments ROUTER_PROMPT {W}. Arguments RAG_PROMPT {W}.
Arguments BOOKING_PROMPT {W}. Arguments HANDOFF_PROMPT {W}.
Arguments router_llm {W}. Arguments rag_llm_tools {W}.
Arguments booking_llm {W}. Arguments handoff_llm {W}.
Arguments retriever {W}. Arguments tool_node {W}.
Arguments json_dumps_sorted {W}. Arguments uuid4 {W}.
Arguments MAX_TOOL_STEPS {W}. Arguments MAX_RETRIES {W}.

Definition nl : string := String (ascii_of_nat 10) EmptyString.

(** The literal of the source, byte for byte. *)
Definition CLARIFY : string :=
  "Could you clarifyâ€”are you trying to book a service or asking an informational question?".

(** The float literal [0.55], i.e. the binary64 value nearest to it. *)
Definition confidence_threshold : float := 0x1.199999999999ap-1%float.

(** ** Stage functions *)
Section Nodes.
Context {W : Type} (E : Env W).

Definition state_messages (state : State) : M W (list Message) :=
  match messages state with
  | Some l => ret l
  | None => raise (KeyError "messages")
  end.

(** [l[-1]] *)
Definition last_of (l : list Message) : M W Message :=
  match last l with
  | Some m => ret m
  | None => raise IndexError
  end.

Definition router_node (state : State) : M W State :=
  let! msgs := state_messages state in
  let! last_user := last_of msgs in
  if negb (is_human last_user) then ret state
  else
    let router_system := System (ROUTER_PROMPT E) in
    let! decision := router_llm E (router_system :: msgs) in
    let decision :=
      if (rd_confidence decision <? confidence_threshold)%float
         && negb (Route_eqb (rd_route decision) general)
      then mkRouterDecision general
             (if negb (Str.truthy (Str.strip (rd_reply decision)))
              then CLARIFY else rd_reply decision)
             (rd_confidence decision)
      else decision in
    let updates :=
      mkState None (Some (rd_route decision)) None None None None None None in
    if Route_eqb (rd_route decision) general
    then ret (mkState (Some [AI (rd_reply decision)]) (route updates)
                None None None None None None)
    else ret updates.

Definition rag_node (state : State) : M W State :=
  let! msgs := state_messages state in
  let! last_msg := last_of msgs in
  let query := content last_msg in
  let! kb_context := retriever E query in
  let ctx_text := String.concat (nl ++ nl) (map page_content kb_context) in
  let system := System (RAG_PROMPT E) in
  let msgs' := system :: msgs ++ [System ("KB_CONTEXT:" ++ nl ++ ctx_text)] in
  let! ai_structured_response := rag_llm_tools E msgs' in
  let ids := filter (fun i => Str.truthy i = true)
               (map mc_id (meta ai_structured_response)) in
  let ai_message := mkMessage AIMessage (answer ai_structured_response) [] ids None in
  ret (mkState (Some [ai_message]) None (Some ids) None None None None None).

(** [tc["name"] + "|" + json.dumps(tc.get("args", {}), sort_keys=True)] *)
Definition signature (tc : ToolCall) : string :=
  tc_name tc ++ "|" ++ json_dumps_sorted E (get (tc_args tc) (JDict [])).

Definition booking_llm_node (state : State) : M W State :=
  let booking_system := System (BOOKING_PROMPT E) in
  let! msgs := state_messages state in
  let! ai := booking_llm E (booking_system :: msgs) in
  let sig :=
    if is_ai ai then
      match tool_calls ai with
      | tc :: _ => signature tc
      | [] => ""
      end
    else "" in
  let repeats := get (repeat_tool_count state) 0 in
  let repeats :=
    if Str.truthy sig && bool_decide (last_tool_signature state = Some sig)
    then repeats + 1 else 0 in
  ret (mkState (Some [ai]) None None None None None (Some sig) (Some repeats)).

Definition booking_should_continue (state : State) : M W string :=
  if MAX_TOOL_STEPS E <=? get (booking_tool_steps state) 0 then ret "end"
  else
    let! msgs := state_messages state in
    let! last_msg := last_of msgs in
    if has_tool_calls last_msg then
      if 2 <=? get (repeat_tool_count state) 0 then ret "end"
      else ret "continue"
    else ret "end".

Definition tools_wrapper (state : State) : M W State :=
  let! out := tool_node E state in
  ret (mkState (Some out) None None None None
         (Some (get (booking_tool_steps state) 0 + 1)) None None).

Definition handoff_node (state : State) : M W State :=
  let! msgs := state_messages state in
  let! last_user := last_of msgs in
  if negb (is_human last_user) then ret state
  else
    let router_system :=
      System (if Str.truthy (HANDOFF_PROMPT E) then HANDOFF_PROMPT E
              else ROUTER_PROMPT E) in
    let! decision := handoff_llm E (router_system :: msgs) in
    ret (mkState (Some [AI (hd_reply decision)]) None None
           (Some (hd_handoff_required decision))
           (Some (if hd_handoff_required decision then hd_reason decision else ""))
           None None None).

End Nodes.

(** ** The graph runtime

    The compiled [StateGraph]: the [add_messages] reducer of the [messages]
    channel, last-value channels for the other keys, the wiring of
    [build_app], the in-memory checkpointer keyed by thread id and the
    recursion limit. *)

Inductive Node := N_router | N_rag | N_booking_llm | N_tools | N_handoff.

Definition node_name (n : Node) : string :=
  match n with
  | N_router => "router_node"
  | N_rag => "rag_node"
  | N_booking_llm => "booking_llm_node"
  | N_tools => "tools"
  | N_handoff => "handoff_node"
  end.

Definition Node_eqb (a b : Node) : bool :=
  match a, b with
  | N_router, N_router | N_rag, N_rag | N_booking_llm, N_booking_llm
  | N_tools, N_tools | N_handoff, N_handoff => true
  | _, _ => false
  end.

Inductive Target := To (n : Node) | END.

(** How a run of the graph stops. *)
Inductive Outcome :=
| Done (final : State)
| Raised (exc : Exn)
| OutOfSteps.

(** One process: the collaborators' world, the checkpointer and the
    [node_enter] lines [_wrap_node] writes to the log. *)
Record Sys (W : Type) := mkSys {
  world : W;
  checkpoints : gmap string State;
  node_log : list Node;
}.
Arguments mkSys {W}. Arguments world {W}. Arguments checkpoints {W}.
Arguments node_log {W}.

Record Config := mkConfig { thread_id : string; recursion_limit : nat }.

(** The error the graph runtime raises when the steps the recursion limit
    allows have all been run. *)
Definition GraphRecursionError (limit : nat) : Exn :=
  mkExn "GraphRecursionError"
    ("Recursion limit of " ++ pretty limit ++
     " reached without hitting a stop condition. You can increase the limit by setting the `recursion_limit` config key.").

(** Number of tool-executor rounds a log records. *)
Definition tool_rounds (log : list Node) : nat :=
  length (filter (fun n => Node_eqb n N_tools = true) log).

Section Graph.
Context {W : Type} (E : Env W).

Definition assign_id (m : Message) (w : W) : Message * W :=
  match msg_id m with
  | Some _ => (m, w)
  | None =>
      let (u, w') := uuid4 E w in
      (mkMessage (msg_type m) (content m) (tool_calls m)
         (additional_kwargs m) (Some u), w')
  end.

Fixpoint assign_ids (l : list Message) (w : W) : list Message * W :=
  match l with
  | [] => ([], w)
  | m :: r =>
      let (m', w1) := assign_id m w in
      let (r', w2) := assign_ids r w1 in
      (m' :: r', w2)
  end.

(** [merged_by_id.get(id)]: the position holding that id. *)
Fixpoint index_by_id (id : option string) (merged : list Message) : option nat :=
  match merged with
  | [] => None
  | m :: r =>
      match index_by_id id r with
      | Some i => Some (S i)
      | None => if bool_decide (msg_id m = id) then Some 0%nat else None
      end
  end.

Definition merge_one (merged : list Message) (m : Message) : list Message :=
  match index_by_id (msg_id m) merged with
  | Some existing_idx => <[existing_idx := m]> merged
  | None => (merged ++ [m])%list
  end.

(** The reducer of the [messages] channel: missing ids are assigned, a
    message whose id is already present replaces that entry in place,
    any other message is appended. *)
Definition add_messages (left_ right_ : list Message) (w : W) : list Message * W :=
  let (left', w1) := assign_ids left_ w in
  let (right', w2) := assign_ids right_ w1 in
  (fold_left merge_one right' left', w2).

(** A key written by the update replaces the channel's value. *)
Definition last_value {A} (old new : option A) : option A :=
  match new with
  | Some v => Some v
  | None => old
  end.

Definition apply_update (state upd : State) (w : W) : State * W :=
  let (msgs, w') :=
    match messages upd with
    | None => (messages state, w)
    | Some new_msgs =>
        let (l, w') := add_messages (get (messages state) []) new_msgs w in
        (Some l, w')
    end in
  (mkState msgs
     (last_value (route state) (route upd))
     (last_value (rag_meta_ids state) (rag_meta_ids upd))
     (last_value (handoff_required state) (handoff_required upd))
     (last_value (handoff_reason state) (handoff_reason upd))
     (last_value (booking_tool_steps state) (booking_tool_steps upd))
     (last_value (last_tool_signature state) (last_tool_signature upd))
     (last_value (repeat_tool_count state) (repeat_tool_count upd)),
   w').

Definition route_after_router (state : State) : M W Target :=
  match route state with
  | None => raise (KeyError "route")
  | Some kb => ret (To N_rag)
  | Some booking => ret (To N_booking_llm)
  | Some handoff => ret (To N_handoff)
  | Some general => ret END
  end.

(** [{"continue": "tools", "end": END}] *)
Definition booking_edges (key : string) : M W Target :=
  if String.eqb key "continue" then ret (To N_tools)
  else if String.eqb key "end" then ret END
  else raise (KeyError key).

Definition exec_node (n : Node) : State -> M W State :=
  match n with
  | N_router => router_node E
  | N_rag => rag_node E
  | N_booking_llm => booking_llm_node E
  | N_tools => tools_wrapper E
  | N_handoff => handoff_node E
  end.

Definition next_node (n : Node) (state : State) : M W Target :=
  match n with
  | N_router => route_after_router state
  | N_booking_llm =>
      let! key := booking_should_continue E state in booking_edges key
  | N_tools => ret (To N_booking_llm)
  | N_rag => ret END
  | N_handoff => ret END
  end.

(** Runs node [n] and what follows it. Each node execution takes one of the
    [steps] the recursion limit leaves; the node's update is written to the
    channels and checkpointed before its outgoing edge is evaluated. The
    runtime checks the limit before it looks at what is to run next: once
    the last step the limit allows has run, the turn is out of steps, also
    when that step led to [END]. *)
Fixpoint run_graph (steps : nat) (tid : string) (n : Node) (state : State)
    (sys : Sys W) : Outcome * Sys W :=
  match steps with
  | O => (OutOfSteps, sys)
  | S steps' =>
      let log := (node_log sys ++ [n])%list in
      match exec_node n state (world sys) with
      | (inl exc, w) => (Raised exc, mkSys w (checkpoints sys) log)
      | (inr upd, w) =>
          let (state', w') := apply_update state upd w in
          let cps := <[tid := state']> (checkpoints sys) in
          match next_node n state' w' with
          | (inl exc, w'') => (Raised exc, mkSys w'' cps log)
          | (inr END, w'') =>
              (match steps' with O => OutOfSteps | S _ => Done state' end,
               mkSys w'' cps log)
          | (inr (To n'), w'') => run_graph steps' tid n' state' (mkSys w'' cps log)
          end
      end
  end.

(** The state a turn starts from: the thread's checkpoint (an empty dict
    for a new thread) with the input written to the channels. *)
Definition begin_turn (input : State) (tid : string) (sys : Sys W) : State * Sys W :=
  let state0 := get (checkpoints sys !! tid) empty_dict in
  let (state1, w) := apply_update state0 input (world sys) in
  (state1, mkSys w (<[tid := state1]> (checkpoints sys)) (node_log sys)).

(** [app.invoke(input, cfg)] *)
Definition app_invoke (input : State) (cfg : Config) : M (Sys W) State :=
  fun sys =>
    let (state1, sys1) := begin_turn input (thread_id cfg) sys in
    match run_graph (recursion_limit cfg) (thread_id cfg) N_router state1 sys1 with
    | (Done final, sys') => (inr final, sys')
    | (Raised exc, sys') => (inl exc, sys')
    | (OutOfSteps, sys') => (inl (GraphRecursionError (recursion_limit cfg)), sys')
    end.

End Graph.

(** ** Notions the statements below speak of *)

(** The first message of a turn, as [GraphService.invoke] passes it. *)
Definition user_input (text : string) : State :=
  mkState (Some [Human text]) None None None None None None None.

(** Messages as the [messages] channel holds them: every message has an id
    and no id occurs twice. *)
Definition ids_ok (msgs : list Message) : Prop :=
  Forall (fun m => is_Some (msg_id m)) msgs /\ NoDup (map msg_id msgs).

(** The UTF-8 bytes of a character below U+10000, given by its code
    point. *)
Definition utf8 (cp : N) : string :=
  Str.text_of_bytes
    (map N.to_nat
       (if cp <? 128 then [cp]
        else if cp <? 2048 then [192 + cp / 64; 128 + cp mod 64]
        else [224 + cp / 4096; 128 + (cp / 64) mod 64; 128 + cp mod 64])%N).

(** The code points of the whitespace characters of Unicode, the ones for
    which [str.isspace] holds and which [str.strip] removes: the ASCII
    controls TAB to CR and FS to US, the blank, NEL, the no-break space,
    the Ogham space mark, the spaces U+2000 to U+200A, the line and
    paragraph separators, the narrow no-break space, the medium
    mathematical space and the ideographic space. *)
Definition is_whitespace (cp : N) : Prop :=
  (9 <= cp <= 13)%N \/ (28 <= cp <= 32)%N \/
  cp = 133%N \/ cp = 160%N \/ cp = 5760%N \/
  (8192 <= cp <= 8202)%N \/
  cp = 8232%N \/ cp = 8233%N \/ cp = 8239%N \/ cp = 8287%N \/
  cp = 12288%N.

(** A text made of whitespace characters only; the empty text is one. *)
Inductive whitespace_only : string -> Prop :=
| ws_empty : whitespace_only ""
| ws_char cp s :
    is_whitespace cp -> whitespace_only s -> whitespace_only (utf8 cp ++ s).

Definition counters_nonneg (state : State) : Prop :=
  0 <= get (booking_tool_steps state) 0 /\ 0 <= get (repeat_tool_count state) 0.

Definition checkpoints_nonneg {W} (sys : Sys W) : Prop :=
  forall tid state, checkpoints sys !! tid = Some state -> counters_nonneg state.

(** The turn that begins with [text] on thread [tid] uses up the 20 steps
    the recursion limit allows; [sys'] is the process then. *)
Definition exceeds_step_limit {W} (E : Env W) (text tid : string)
    (sys sys' : Sys W) : Prop :=
  run_graph E 20 tid N_router
    (fst (begin_turn E (user_input text) tid sys))
    (snd (begin_turn E (user_input text) tid sys)) = (OutOfSteps, sys').

(** ** [cob_demo_agent/sre/graph_service.py] *)

(** The dict [GraphService.invoke] returns. *)
Record Response := mkResponse {
  r_reply : string;
  r_route : Route;
  r_rag_meta_ids : list string;
  r_handoff_required : bool;
  r_handoff_reason : string;
}.

(** The service's process: the world of the compiled app and the pauses
    [time.sleep] has been asked for, in seconds. *)
Record Host (S : Type) := mkHost { app_world : S; slept : list Q }.
Arguments mkHost {S}. Arguments app_world {S}. Arguments slept {S}.

Record GraphService (S : Type) := mkGraphService {
  _app : State -> Config -> M S State;
  _max_retries : Z;
}.
Arguments mkGraphService {S}. Arguments _app {S}. Arguments _max_retries {S}.

(** [GraphService.__init__] *)
Definition new_GraphService {W} (E : Env W) : GraphService (Sys W) :=
  mkGraphService (app_invoke E) (MAX_RETRIES E).

(** [range(n)] *)
Definition range (n : Z) : list Z := map Z.of_nat (seq 0 (Z.to_nat n)).

Definition normalize (state : State) : Response :=
  let msgs := get (messages state) [] in
  let reply := match last msgs with Some m => content m | None => "" end in
  mkResponse reply
    (get (route state) general)
    (get (rag_meta_ids state) [])
    (get (handoff_required state) false)
    (get (handoff_reason state) "").

Definition time_sleep {S} (seconds : Q) : M (Host S) unit :=
  fun h => (inr tt, mkHost (app_world h) (slept h ++ [seconds])%list).

Section Service.
Context {S : Type} (self : GraphService S).

Definition call_app (message : string) (cfg : Config) : M (Host S) State :=
  fun h =>
    let (res, s') :=
      _app self (user_input message) cfg (app_world h) in
    (res, mkHost s' (slept h)).

(** The [for attempt in range(self._max_retries + 1)] loop with its [else]. *)
Fixpoint attempt_loop (attempts : list Z) (last_exc : option Exn)
    (message : string) (cfg : Config) : M (Host S) State :=
  match attempts with
  | [] =>
      match last_exc with
      | Some exc => raise exc
      | None => raise TypeError
      end
  | attempt :: rest =>
      fun h =>
        match call_app message cfg h with
        | (inr state, h') => (inr state, h')
        | (inl exc, h') =>
            let info := classify_exception exc in
            if negb (retryable info) || (_max_retries self <=? attempt)
            then (inl exc, h')
            else
              (let! _ := time_sleep ((1 # 2) * inject_Z (attempt + 1)) in
               attempt_loop rest (Some exc) message cfg) h'
        end
  end.

Definition invoke (message : string) (thread : string) : M (Host S) Response :=
  let cfg := mkConfig thread 20 in
  let! state := attempt_loop (range (_max_retries self + 1)) None message cfg in
  ret (normalize state).

End Service.

(** ** [cob_demo_agent/routes/chat.py] *)

Record ChatRequest := mkChatRequest { req_message : string; req_thread_id : string }.

Record HTTPException := mkHTTPException {
  http_status_code : Z;
  detail_error : string;
  detail_message : string;
}.

Definition chat {S} (req : ChatRequest) (svc : GraphService S) (h : Host S)
    : (HTTPException + Response) * Host S :=
  match invoke svc (req_message req) (req_thread_id req) h with
  | (inr out, h') => (inr out, h')
  | (inl exc, h') =>
      let info := classify_exception exc in
      (inl (mkHTTPException (status_code info) (kind info) (message info)), h')
  end.

(** ** [cob_demo_agent/sre/booking_agent/tools.py] *)
Module Tools.

(** A row of the [appointments] table. The table is created outside the
    sources at hand; the columns are the ones the queries name. *)
Record Appointment := mkAppointment {
  service : string;
  date : string;
  time : string;
  status : string;
  customer_name : option string;
  phone : option string;
  created_at : option string;
}.

(** The table, in the order a scan visits its rows. *)
Definition Table := list Appointment.

(** [WHERE service=? AND date=? AND time=?] *)
Definition slot_matches (service_ date_ time_ : string) (r : Appointment) : bool :=
  String.eqb (service r) service_ && String.eqb (date r) date_
  && String.eqb (time r) time_.

Definition is_free (r : Appointment) : bool := String.eqb (status r) "free".

Definition core_check_slot_availability (db : Table)
    (service_ date_ time_ : string) : string :=
  match List.find (slot_matches service_ date_ time_) db with
  | None => "not_found"
  | Some row => if String.eqb (status row) "free" then "available" else "booked"
  end.

(** The [SET] clause of the [UPDATE]. *)
Definition booked_by (customer_name_ phone_ now : string) (r : Appointment)
    : Appointment :=
  mkAppointment (service r) (date r) (time r) "booked"
    (Some customer_name_) (Some phone_) (Some now).

(** The [UPDATE ... WHERE ... AND status='free'] statement: the new table
    and [cur.rowcount]. [now] is what [datetime('now')] gives. *)
Definition update_free (db : Table) (service_ date_ time_ customer_name_ phone_
    now : string) : Table * Z :=
  let hit r := slot_matches service_ date_ time_ r && is_free r in
  (map (fun r => if hit r then booked_by customer_name_ phone_ now r else r) db,
   Z.of_nat (length (List.filter hit db))).

Definition core_book_slot (db : Table) (service_ date_ time_ customer_name_
    phone_ now : string) : string * Table :=
  let (db', updated) :=
    update_free db service_ date_ time_ customer_name_ phone_ now in
  if updated =? 1 then ("success", db')
  else
    let status_ := core_check_slot_availability db' service_ date_ time_ in
    if String.eqb status_ "booked" then ("booked", db')
    else ("not_found", db').

Definition slot_key (r : Appointment) : string * string * string :=
  (service r, date r, time r).

(** Modelled from the spec: the declaration of the [appointments] table is
    not among the sources; the design identifies a slot by its (service,
    date, time), so a key names at most one row. No statement of
    [tools.py] enforces it. *)
Definition unique_slots (db : Table) : Prop := NoDup (map slot_key db).

End Tools.

(** ** Scripted collaborators, for running the engine on concrete turns *)
Module Script.

(** The world is a counter: the number of ids handed out so far. *)
Definition W := nat.

Definition uuid4 (w : W) : string * W := ("uuid-" ++ pretty w, S w).

Definition last_text (msgs : list Message) : string :=
  match last msgs with Some m => content m | None => "" end.

(** A blank followed by a no-break space (U+00A0). *)
Definition blank_reply : string := " " ++ Str.text_of_bytes [194; 160]%nat.

(** Routes on the wording of the latest message. *)
Definition router_llm (msgs : list Message) : M W RouterDecision :=
  let text := Str.lower (last_text msgs) in
  if Str.contains "book" text then ret (mkRouterDecision booking "" 0.875%float)
  else if Str.contains "human" text || Str.contains "agent" text
  then ret (mkRouterDecision handoff "" 0.875%float)
  else if Str.contains "hours" text then ret (mkRouterDecision kb "" 0.875%float)
  else if Str.contains "maybe" text then ret (mkRouterDecision booking blank_reply 0.25%float)
  else ret (mkRouterDecision general "Hello!" 0.875%float).

Definition rag_llm_tools (msgs : list Message) : M W StructuredResponseRAG :=
  ret (mkStructuredResponseRAG "We open at nine."
         [mkMetaChunk "faq-1" "Hours" "general" "faq.md" 0;
          mkMetaChunk "" "" "" "" 0]).

Definition check_call (n : Z) : ToolCall :=
  mkToolCall "check_slot_availability" (Some (JInt n)) "call".

(** Always proposes a tool call: the same one every time, or (when [vary])
    a call whose argument changes with the length of the history. *)
Definition booking_llm (vary : bool) (msgs : list Message) : M W Message :=
  let n := if vary then Z.of_nat (length msgs) else 0 in
  ret (mkMessage AIMessage "" [check_call n] [] None).

(** Asks for a human exactly when the latest message says so. *)
Definition handoff_llm (msgs : list Message) : M W HandoffDecision :=
  if Str.contains "human" (Str.lower (last_text msgs))
  then ret (mkHandoffDecision true "asked for a person" "Connecting you.")
  else ret (mkHandoffDecision false "ignored" "How else can I help?").

Definition retriever (query : string) : M W (list Document) :=
  ret [mkDocument "Opening hours: 9-17."].

Definition tool_node (state : State) : M W (list Message) :=
  ret [mkMessage ToolMessage "not_found" [] [] None].

Definition json_dumps_sorted (j : Json) : string :=
  match j with
  | JInt z => pretty z
  | JString s => s
  | _ => "{}"
  end.

Definition env (vary : bool) (max_tool_steps max_retries : Z) : Env W :=
  mkEnv W "router" "rag" "booking" "handoff"
    router_llm rag_llm_tools (booking_llm vary) handoff_llm retriever tool_node
    json_dumps_sorted uuid4 max_tool_steps max_retries.

Definition sys0 : Sys W := mkSys 0%nat ∅ [].
Definition host0 : Host (Sys W) := mkHost sys0 [].

(** The default deployment: [MAX_TOOL_STEPS = 4], [MAX_RETRIES = 1]. *)
Definition default_env : Env W := env false 4 1.
Definition svc : GraphService (Sys W) := new_GraphService default_env.

(** A deployment whose tool budget is larger than the recursion limit and
    whose generator never repeats itself. *)
Definition runaway_env : Env W := env true 50 1.
Definition runaway_svc : GraphService (Sys W) := new_GraphService runaway_env.

(** Runs the turns of one thread in order and keeps the last answer. *)
Fixpoint turns (svc : GraphService (Sys W)) (thread : string)
    (texts : list string) (h : Host (Sys W)) : option (Exn + Response) * Host (Sys W) :=
  match texts with
  | [] => (None, h)
  | t :: rest =>
      let (r, h') := invoke svc t thread h in
      match rest with
      | [] => (Some r, h')
      | _ => turns svc thread rest h'
      end
  end.

(** An app that fails with a transient error while its world, a call
    counter, is below [failures], and answers after that. *)
Definition flaky_app (failures : nat) (input : State) (cfg : Config) : M nat State :=
  fun calls =>
    if (calls <? failures)%nat
    then (inl (mkExn "ServiceUnavailable" "503 Service Unavailable"), S calls)
    else (inr (mkState (Some [AI "done"]) (Some general) None None None None None None),
          S calls).

Definition flaky_svc (failures : nat) (max_retries : Z) : GraphService nat :=
  mkGraphService (flaky_app failures) max_retries.

(** Where the runaway deployment stands when its first booking turn has
    used up the recursion limit. *)
Definition runaway_end : Sys W :=
  snd (run_graph runaway_env 20 "t" N_router
         (fst (begin_turn runaway_env (user_input "book please") "t" sys0))
         (snd (begin_turn runaway_env (user_input "book please") "t" sys0))).

(** A thread on which the assistant spoke last. *)
Definition answered : State :=
  mkState
    (Some [mkMessage HumanMessage "hi" [] [] (Some "uuid-0");
           mkMessage AIMessage "Hello!" [] [] (Some "uuid-1")])
    (Some general) None None None None None None.

(** A thread whose first message has just arrived. *)
Definition asked (text : string) : State :=
  mkState (Some [mkMessage HumanMessage text [] [] (Some "uuid-0")])
    None None None None None None None.

(** The checkpoint of a thread. *)
Definition thread_state (h : Host (Sys W)) (thread : string) : State :=
  get (checkpoints (app_world h) !! thread) empty_dict.

Definition sample_db : Tools.Table :=
  [Tools.mkAppointment "cut" "2025-01-02" "09:00" "free" None None None;
   Tools.mkAppointment "cut" "2025-01-02" "09:30" "booked" (Some "Ann") (Some "1") (Some "t0");
   Tools.mkAppointment "dye" "2025-01-02" "09:00" "free" None None None].

End Script.


(** ** The error classifier as the design states it

    Four categories in priority order, each with its signal substrings,
    searched without regard to case. *)
Inductive Category := Quota | Transient | BadRequest | Internal.

Definition signals (c : Category) : list string :=
  match c with
  | Quota => ["resource exhausted"; "quota"; "rate limit"; "429"]
  | Transient => ["timeout"; "timed out"; "temporarily unavailable"; "503"]
  | BadRequest => ["invalid"; "bad request"; "400"]
  | Internal => []
  end.

(** The same letter in either case: the capital letters have the codes
    65 to 90, and a small letter the code of its capital plus 32. *)
Definition same_letter (a b : ascii) : Prop :=
  a = b \/
  exists n : nat,
    (65 <= n <= 90)%nat /\
    ((nat_of_ascii a = n /\ nat_of_ascii b = (n + 32)%nat) \/
     (nat_of_ascii b = n /\ nat_of_ascii a = (n + 32)%nat)).

Inductive same_up_to_case : string -> string -> Prop :=
| suc_nil : same_up_to_case "" ""
| suc_cons a b s t :
    same_letter a b -> same_up_to_case s t ->
    same_up_to_case (String a s) (String b t).

(** [sig] occurs in [text] up to the case of letters. *)
Definition ci_occurs (sig text : string) : Prop :=
  exists pre mid post,
    text = pre ++ mid ++ post /\ same_up_to_case mid sig.

Definition has_signal (c : Category) (text : string) : Prop :=
  exists sig, In sig (signals c) /\ ci_occurs sig text.

Inductive first_match (text : string) : Category -> Prop :=
| fm_quota :
    has_signal Quota text -> first_match text Quota
| fm_transient :
    ~ has_signal Quota text -> has_signal Transient text ->
    first_match text Transient
| fm_bad_request :
    ~ has_signal Quota text -> ~ has_signal Transient text ->
    has_signal BadRequest text -> first_match text BadRequest
| fm_internal :
    ~ has_signal Quota text -> ~ has_signal Transient text ->
    ~ has_signal BadRequest text -> first_match text Internal.

(** [(kind, statusCode, retryable)] of a category. *)
Definition verdict (c : Category) : string * Z * bool :=
  match c with
  | Quota => ("MODEL_QUOTA_EXCEEDED", 429, true)
  | Transient => ("TRANSIENT_UPSTREAM_ERROR", 503, true)
  | BadRequest => ("UPSTREAM_BAD_REQUEST", 400, false)
  | Internal => ("INTERNAL_ERROR", 500, false)
  end.

Definition verdict_of (info : ErrorInfo) : string * Z * bool :=
  (kind info, status_code info, retryable info).

(** Boolean search for the signals of a category in an already lowered text. *)
Definition has_signalb (c : Category) (low : string) : bool :=
  existsb (fun sig => Str.contains sig low) (signals c).

(* ================================================================= *)
(** * Properties *)

(** ** Strings *)
Module StrFacts.
Import Str.

Lemma startswith_app p t : startswith p (p ++ t) = true.
Proof.
  induction p as [|a p IH]; simpl.
  - by destruct t.
  - by rewrite Ascii.eqb_refl.
Qed.

Lemma startswith_inv p s : startswith p s = true -> exists t, s = p ++ t.
Proof.
  revert s. induction p as [|a p IH]; intros s H.
  - by exists s.
  - destruct s as [|b s]; simpl in H; [done|].
    destruct (Ascii.eqb_spec a b) as [->|]; [|done].
    destruct (IH _ H) as [t ->]. by exists t.
Qed.

Lemma contains_unfold sub s :
  contains sub s =
  startswith sub s
  || match s with EmptyString => false | String _ r => contains sub r end.
Proof. by destruct s. Qed.

Lemma contains_spec sub s :
  contains sub s = true <-> exists pre post, s = pre ++ sub ++ post.
Proof.
  split.
  - induction s as [|c s IH]; simpl; intros H.
    + rewrite orb_false_r in H. apply startswith_inv in H as [t ->].
      by exists "", t.
    + apply orb_true_iff in H as [H|H].
      * apply startswith_inv in H as [t ->]. by exists "", t.
      * destruct (IH H) as (pre & post & ->). by exists (String c pre), post.
  - intros (pre & post & ->). induction pre as [|c pre IH].
    + change ("" ++ sub ++ post) with (sub ++ post).
      rewrite contains_unfold, startswith_app. done.
    + change (String c pre ++ sub ++ post) with (String c (pre ++ sub ++ post)).
      rewrite contains_unfold, IH. apply orb_true_r.
Qed.

Lemma lower_app a b : lower (a ++ b) = lower a ++ lower b.
Proof. induction a as [|c a IH]; simpl; [done|by rewrite IH]. Qed.

Lemma lower_split t a b :
  lower t = a ++ b -> exists t1 t2, t = t1 ++ t2 /\ lower t1 = a /\ lower t2 = b.
Proof.
  revert t. induction a as [|c a IH]; intros t H.
  - by exists "", t.
  - destruct t as [|d t]; simpl in H; [done|].
    injection H as Hc Ht. destruct (IH _ Ht) as (t1 & t2 & -> & H1 & H2).
    exists (String d t1), t2. simpl. by rewrite Hc, H1.
Qed.

Lemma is_upper_code c :
  is_upper c = true <-> (65 <= nat_of_ascii c <= 90)%nat.
Proof.
  unfold is_upper. rewrite andb_true_iff, !Nat.leb_le. tauto.
Qed.

Lemma code_inj a b : nat_of_ascii a = nat_of_ascii b -> a = b.
Proof.
  intros H. rewrite <- (ascii_nat_embedding a), <- (ascii_nat_embedding b).
  by rewrite H.
Qed.

Lemma lower_char_code c :
  nat_of_ascii (lower_char c) =
  if is_upper c then (nat_of_ascii c + 32)%nat else nat_of_ascii c.
Proof.
  unfold lower_char. destruct (is_upper c) eqn:Hu; [|done].
  apply is_upper_code in Hu. apply nat_ascii_embedding. lia.
Qed.

(** [lower] identifies exactly the characters that are the same letter. *)
Lemma lower_char_same a b : lower_char a = lower_char b <-> same_letter a b.
Proof.
  split.
  - intros H. apply (f_equal nat_of_ascii) in H.
    rewrite !lower_char_code in H.
    destruct (is_upper a) eqn:Ha, (is_upper b) eqn:Hb.
    + left. apply code_inj. lia.
    + right. apply is_upper_code in Ha. exists (nat_of_ascii a).
      split; [done|]. left. split; [done|]. lia.
    + right. apply is_upper_code in Hb. exists (nat_of_ascii b).
      split; [done|]. right. split; [done|]. lia.
    + left. by apply code_inj.
  - intros [->|(n & Hn & [[Ha Hb]|[Hb Ha]])]; [done| |];
      apply code_inj; rewrite !lower_char_code.
    + assert (is_upper a = true) as -> by (apply is_upper_code; lia).
      destruct (is_upper b) eqn:Hu; [|lia]. apply is_upper_code in Hu. lia.
    + assert (is_upper b = true) as -> by (apply is_upper_code; lia).
      destruct (is_upper a) eqn:Hu; [|lia]. apply is_upper_code in Hu. lia.
Qed.

Lemma lower_same s t : lower s = lower t <-> same_up_to_case s t.
Proof.
  split.
  - revert t. induction s as [|a s IH]; intros [|b t] H; simpl in H; try done.
    + constructor.
    + injection H as Hc Hr. constructor; [by apply lower_char_same|by apply IH].
  - induction 1 as [|a b s t Hc _ IH]; simpl; [done|].
    apply lower_char_same in Hc. by rewrite Hc, IH.
Qed.

(** Searching a lowered signal in the lowered text is the search without
    regard to case. *)
Lemma contains_lower sig text :
  lower sig = sig ->
  contains sig (lower text) = true <-> ci_occurs sig text.
Proof.
  intros Hsig. rewrite contains_spec. split.
  - intros (pre & post & H).
    apply lower_split in H as (t1 & t23 & -> & H1 & H23).
    apply lower_split in H23 as (t2 & t3 & -> & H2 & H3).
    exists t1, t2, t3. split; [done|]. apply lower_same. by rewrite Hsig.
  - intros (pre & mid & post & -> & Hmid). apply lower_same in Hmid.
    exists (lower pre), (lower post).
    by rewrite !lower_app, Hmid, Hsig.
Qed.

(** The whitespace character a text starts with, if any, and what follows
    it. *)
Definition space_prefix (s : string) : option string :=
  match s with
  | String a r =>
      if isspace (String a EmptyString) then Some r
      else
        match r with
        | String b r2 =>
            if isspace (String a (String b EmptyString)) then Some r2
            else
              match r2 with
              | String c r3 =>
                  if isspace (String a (String b (String c EmptyString)))
                  then Some r3
                  else None
              | EmptyString => None
              end
        | EmptyString => None
        end
  | EmptyString => None
  end.

Lemma lstrip_unfold s :
  lstrip s = match space_prefix s with Some r => lstrip r | None => s end.
Proof.
  destruct s as [|a [|b [|c r]]]; simpl; try done;
    repeat (match goal with |- context [isspace ?x] => destruct (isspace x) end;
            try done).
Qed.

Lemma blank_unfold s :
  blank s =
  match s with
  | EmptyString => true
  | _ => match space_prefix s with Some r => blank r | None => false end
  end.
Proof.
  destruct s as [|a [|b [|c r]]]; simpl; try done;
    repeat (match goal with |- context [isspace ?x] => destruct (isspace x) end;
            try done).
Qed.

Lemma isspace_In w : isspace w = true <-> In w WHITESPACE.
Proof.
  unfold isspace. rewrite existsb_exists. split.
  - intros (x & Hin & Heq). apply String.eqb_eq in Heq. by subst.
  - intros H. exists w. split; [done|]. apply String.eqb_refl.
Qed.

Lemma space_prefix_inv s r :
  space_prefix s = Some r ->
  exists w, In w WHITESPACE /\ s = w ++ r /\ (String.length r < String.length s)%nat.
Proof.
  destruct s as [|a s]; cbn [space_prefix]; [done|].
  destruct (isspace (String a "")) eqn:H1.
  { intros [= ->]. exists (String a ""). apply isspace_In in H1.
    split; [done|]. split; [done|]. cbn [String.length]. lia. }
  destruct s as [|b s]; [done|].
  destruct (isspace (String a (String b ""))) eqn:H2.
  { intros [= ->]. exists (String a (String b "")). apply isspace_In in H2.
    split; [done|]. split; [done|]. cbn [String.length]. lia. }
  destruct s as [|c s]; [done|].
  destruct (isspace (String a (String b (String c "")))) eqn:H3; [|done].
  intros [= ->]. exists (String a (String b (String c ""))).
  apply isspace_In in H3.
  split; [done|]. split; [done|]. cbn [String.length]. lia.
Qed.

Lemma space_prefix_app w r : In w WHITESPACE -> space_prefix (w ++ r) = Some r.
Proof.
  intros H. simpl in H.
  repeat (destruct H as [<-|H]; [reflexivity|]). done.
Qed.

Lemma whitespace_nonempty w : In w WHITESPACE -> w <> "".
Proof.
  intros H ->. apply isspace_In in H. discriminate H.
Qed.

(** The code points behind the entries of [WHITESPACE], in their order. *)
Definition WHITESPACE_CODES : list N :=
  [9; 10; 11; 12; 13; 28; 29; 30; 31; 32; 133; 160; 5760;
   8192; 8193; 8194; 8195; 8196; 8197; 8198; 8199; 8200; 8201; 8202;
   8232; 8233; 8239; 8287; 12288]%N.

Lemma WHITESPACE_utf8 : WHITESPACE = map utf8 WHITESPACE_CODES.
Proof. vm_compute. reflexivity. Qed.

Lemma WHITESPACE_CODES_spec cp : In cp WHITESPACE_CODES <-> is_whitespace cp.
Proof. unfold WHITESPACE_CODES, is_whitespace. simpl. lia. Qed.

(** The table [strip] works with holds the UTF-8 forms of exactly the
    whitespace characters. *)
Lemma WHITESPACE_spec w :
  In w WHITESPACE <-> exists cp, is_whitespace cp /\ w = utf8 cp.
Proof.
  rewrite WHITESPACE_utf8, in_map_iff. split.
  - intros (cp & <- & Hcp). exists cp. by rewrite <- WHITESPACE_CODES_spec.
  - intros (cp & Hcp & ->). exists cp. by rewrite WHITESPACE_CODES_spec.
Qed.

(** [blank] is whitespace-only, stated on the text itself. *)
Lemma blank_spec s : blank s = true <-> whitespace_only s.
Proof.
  split.
  - remember (String.length s) as n eqn:Hn. revert s Hn.
    induction n as [n IH] using lt_wf_ind. intros s -> H.
    rewrite blank_unfold in H. destruct s as [|a s]; [constructor|].
    destruct (space_prefix (String a s)) as [r|] eqn:Hp; [|done].
    apply space_prefix_inv in Hp as (w & Hw & Heq & Hlen). rewrite Heq.
    apply WHITESPACE_spec in Hw as (cp & Hcp & ->).
    constructor; [done|]. by apply (IH (String.length r) Hlen).
  - induction 1 as [|cp s Hcp _ IH]; [done|].
    assert (Hw : In (utf8 cp) WHITESPACE) by (apply WHITESPACE_spec; eauto).
    rewrite blank_unfold, (space_prefix_app _ s Hw), IH.
    destruct (utf8 cp); [by apply whitespace_nonempty in Hw|done].
Qed.

Lemma lstrip_blank s : blank s = true -> lstrip s = "".
Proof.
  remember (String.length s) as n eqn:Hn. revert s Hn.
  induction n as [n IH] using lt_wf_ind. intros s -> H.
  rewrite blank_unfold in H. rewrite lstrip_unfold.
  destruct s as [|a s]; [done|].
  destruct (space_prefix (String a s)) as [r|] eqn:Hp; [|done].
  apply space_prefix_inv in Hp as (w & _ & _ & Hlen).
  by apply (IH (String.length r) Hlen).
Qed.

Lemma blank_lstrip s : blank (lstrip s) = true -> blank s = true.
Proof.
  remember (String.length s) as n eqn:Hn. revert s Hn.
  induction n as [n IH] using lt_wf_ind. intros s ->.
  rewrite lstrip_unfold, (blank_unfold s).
  destruct s as [|a s]; [done|].
  destruct (space_prefix (String a s)) as [r|] eqn:Hp.
  - apply space_prefix_inv in Hp as (w & _ & _ & Hlen).
    by apply (IH (String.length r) Hlen).
  - rewrite blank_unfold, Hp. done.
Qed.

Lemma rstrip_empty s : rstrip s = "" <-> blank s = true.
Proof.
  destruct s as [|c s]; [done|].
  change (rstrip (String c s))
    with (if blank (String c s) then "" else String c (rstrip s)).
  by destruct (blank (String c s)).
Qed.

(** [not s.strip()] holds exactly for the empty and the whitespace-only
    texts. *)
Lemma strip_empty s : truthy (strip s) = false <-> blank s = true.
Proof.
  unfold strip. split.
  - intros H. apply blank_lstrip. apply rstrip_empty.
    by destruct (rstrip (lstrip s)).
  - intros H. apply lstrip_blank in H. by rewrite H.
Qed.

Lemma strip_whitespace_only s :
  truthy (strip s) = false <-> whitespace_only s.
Proof. by rewrite strip_empty, blank_spec. Qed.

End StrFacts.

(** ** The error classifier *)
Module ErrorsFacts.

Lemma signals_lowered c : Forall (fun sig => Str.lower sig = sig) (signals c).
Proof. destruct c; repeat constructor. Qed.

Lemma has_signalb_spec c text :
  has_signalb c (Str.lower text) = true <-> has_signal c text.
Proof.
  unfold has_signalb, has_signal. rewrite existsb_exists.
  pose proof (signals_lowered c) as Hlow. rewrite Forall_forall in Hlow.
  split; intros (sig & Hin & H); exists sig; split; try done.
  - apply StrFacts.contains_lower; [|done]. apply Hlow. by apply list_elem_of_In.
  - apply StrFacts.contains_lower; [|done]. apply Hlow. by apply list_elem_of_In.
Qed.

Lemma has_signal_dec c text : {has_signal c text} + {~ has_signal c text}.
Proof.
  destruct (has_signalb c (Str.lower text)) eqn:H.
  - left. by apply has_signalb_spec.
  - right. intros H'%has_signalb_spec. congruence.
Qed.

(** The cascade of [if]s of the source, read category by category. *)
Lemma classify_exception_cascade exc :
  let low := Str.lower (exn_str exc) in
  verdict_of (classify_exception exc) =
  if has_signalb Quota low then verdict Quota
  else if has_signalb Transient low then verdict Transient
  else if has_signalb BadRequest low then verdict BadRequest
  else verdict Internal.
Proof.
  unfold classify_exception, has_signalb, verdict_of. simpl existsb.
  repeat (match goal with
          | |- context [Str.contains ?a ?b] => destruct (Str.contains a b)
          end; simpl; try reflexivity).
Qed.

Lemma classify_exception_first_match exc c :
  first_match (exn_str exc) c -> verdict_of (classify_exception exc) = verdict c.
Proof.
  intros H. rewrite classify_exception_cascade. cbv zeta.
  destruct H as [H1|H1 H2|H1 H2 H3|H1 H2 H3];
    repeat match goal with
      | H : has_signal _ _ |- _ => apply has_signalb_spec in H; rewrite H
      | H : ~ has_signal _ _ |- _ =>
          rewrite <- has_signalb_spec in H; apply not_true_is_false in H; rewrite H
      end; reflexivity.
Qed.

Lemma first_match_total text : exists c, first_match text c.
Proof.
  destruct (has_signal_dec Quota text); [by exists Quota; constructor|].
  destruct (has_signal_dec Transient text); [by exists Transient; constructor|].
  destruct (has_signal_dec BadRequest text); [by exists BadRequest; constructor|].
  exists Internal. by constructor.
Qed.

Lemma first_match_unique text c1 c2 :
  first_match text c1 -> first_match text c2 -> c1 = c2.
Proof. intros H1 H2. destruct H1, H2; done. Qed.

(** C5. [classify_exception] is total and depends on the exception only
    through its text; it returns the verdict (kind, status code, retryable)
    of the first category, in the order quota, transient, bad request, one
    of whose signal substrings occurs in the text with its letters in
    either case, and the internal-error verdict when none occurs. Every
    text has exactly one first-matching category. A text containing "429"
    is a quota error and the text "Invalid argument: 400" is an upstream
    bad request; "RESOURCE EXHAUSTED" is a quota error, "Request Timed
    Out" a transient one, "Bad Request" a bad request, whatever the case
    of their letters, and "Gateway TIMEOUT: Invalid key", which carries a
    transient and a bad-request signal, is a transient error. *)
Theorem classify_exception_priority :
  (forall text, exists c, first_match text c /\
      forall c', first_match text c' -> c' = c) /\
  (forall exc c, first_match (exn_str exc) c ->
      verdict_of (classify_exception exc) = verdict c) /\
  (forall e1 e2, exn_str e1 = exn_str e2 ->
      classify_exception e1 = classify_exception e2) /\
  (forall exc pre post, exn_str exc = pre ++ "429" ++ post ->
      verdict_of (classify_exception exc) = ("MODEL_QUOTA_EXCEEDED", 429, true)) /\
  (forall cls, verdict_of (classify_exception (mkExn cls "Invalid argument: 400"))
               = ("UPSTREAM_BAD_REQUEST", 400, false)) /\
  (forall exc pre mid post,
      exn_str exc = pre ++ mid ++ post -> same_up_to_case mid "resource exhausted" ->
      verdict_of (classify_exception exc) = ("MODEL_QUOTA_EXCEEDED", 429, true)) /\
  (forall exc pre mid post,
      exn_str exc = pre ++ mid ++ post -> same_up_to_case mid "timed out" ->
      ~ has_signal Quota (exn_str exc) ->
      verdict_of (classify_exception exc) = ("TRANSIENT_UPSTREAM_ERROR", 503, true)) /\
  (forall cls, verdict_of (classify_exception (mkExn cls "RESOURCE EXHAUSTED"))
               = ("MODEL_QUOTA_EXCEEDED", 429, true)) /\
  (forall cls, verdict_of (classify_exception (mkExn cls "Request Timed Out"))
               = ("TRANSIENT_UPSTREAM_ERROR", 503, true)) /\
  (forall cls, verdict_of (classify_exception (mkExn cls "Bad Request"))
               = ("UPSTREAM_BAD_REQUEST", 400, false)) /\
  (forall cls, verdict_of (classify_exception (mkExn cls "Gateway TIMEOUT: Invalid key"))
               = ("TRANSIENT_UPSTREAM_ERROR", 503, true)) /\
  (forall cls, verdict_of (classify_exception (mkExn cls "connection reset by peer"))
               = ("INTERNAL_ERROR", 500, false)).
Proof.
  split_and!; try reflexivity.
  - intros text. destruct (first_match_total text) as [c Hc].
    exists c. split; [done|]. intros c' Hc'. by eapply first_match_unique.
  - apply classify_exception_first_match.
  - intros e1 e2 H. unfold classify_exception. by rewrite H.
  - intros exc pre post H.
    apply (classify_exception_first_match exc Quota). constructor.
    exists "429". split; [simpl; tauto|]. exists pre, "429", post.
    split; [done|]. by apply StrFacts.lower_same.
  - intros exc pre mid post H Hmid.
    apply (classify_exception_first_match exc Quota). constructor.
    exists "resource exhausted". split; [simpl; tauto|]. by exists pre, mid, post.
  - intros exc pre mid post H Hmid Hq.
    apply (classify_exception_first_match exc Transient). constructor; [done|].
    exists "timed out". split; [simpl; tauto|]. by exists pre, mid, post.
Qed.

(** The text "Gateway TIMEOUT: Invalid key" carries no quota signal and
    carries, in capitals, a transient one, so the priority rule makes it a
    transient error although a bad-request signal occurs in it too. *)
Lemma classify_exception_priority_witness :
  first_match "Gateway TIMEOUT: Invalid key" Transient /\
  has_signal BadRequest "Gateway TIMEOUT: Invalid key" /\
  verdict_of
    (classify_exception (mkExn "ValueError" "Gateway TIMEOUT: Invalid key"))
  = verdict Transient.
Proof.
  assert (H : first_match "Gateway TIMEOUT: Invalid key" Transient).
  { apply fm_transient.
    - rewrite <- has_signalb_spec. vm_compute. discriminate.
    - rewrite <- has_signalb_spec. vm_compute. reflexivity. }
  split; [exact H|]. split.
  { rewrite <- has_signalb_spec. vm_compute. reflexivity. }
  exact (proj1 (proj2 classify_exception_priority)
           (mkExn "ValueError" "Gateway TIMEOUT: Invalid key") Transient H).
Defined.

End ErrorsFacts.

(** ** Channels and stage updates *)

(** Unfolds the monad and splits on every collaborator call in the goal. *)
Ltac run_monad :=
  unfold bind, ret, raise, state_messages, last_of in *; simpl in *.

(** Reads [state["messages"]] and its last entry, closing the branches in
    which the read raises. *)
Ltac open_messages st :=
  unfold state_messages, last_of, bind, ret, raise;
  destruct (messages st) as [?msgs|] eqn:?Hmsgs; simpl; [|try done];
  try match goal with
    | |- context [last ?l] =>
        destruct (last l) as [?m|] eqn:?Hlast; simpl; [|try done]
    end.

(** The same when the reads are known to succeed. *)
Ltac read_messages Hm Hl :=
  unfold state_messages, last_of, bind, ret, raise;
  rewrite Hm; simpl; rewrite Hl; simpl.

Ltac split_calls :=
  repeat match goal with
    | |- context [match ?x with _ => _ end] => destruct x eqn:?; simpl in *
    | |- context [if ?b then _ else _] => destruct b eqn:?; simpl in *
    end.

Section ChannelFacts.
Context {W : Type} (E : Env W).

Lemma apply_update_shape state upd w :
  exists msgs,
    fst (apply_update E state upd w) =
    mkState msgs
      (last_value (route state) (route upd))
      (last_value (rag_meta_ids state) (rag_meta_ids upd))
      (last_value (handoff_required state) (handoff_required upd))
      (last_value (handoff_reason state) (handoff_reason upd))
      (last_value (booking_tool_steps state) (booking_tool_steps upd))
      (last_value (last_tool_signature state) (last_tool_signature upd))
      (last_value (repeat_tool_count state) (repeat_tool_count upd)).
Proof.
  unfold apply_update. destruct (messages upd) as [r|].
  - destruct (add_messages E _ r w) as [l w']. by eexists.
  - by eexists.
Qed.

Lemma apply_update_booking_tool_steps state upd w :
  booking_tool_steps (fst (apply_update E state upd w)) =
  last_value (booking_tool_steps state) (booking_tool_steps upd).
Proof. destruct (apply_update_shape state upd w) as [m ->]. done. Qed.

Lemma apply_update_repeat_tool_count state upd w :
  repeat_tool_count (fst (apply_update E state upd w)) =
  last_value (repeat_tool_count state) (repeat_tool_count upd).
Proof. destruct (apply_update_shape state upd w) as [m ->]. done. Qed.

Lemma apply_update_rag_meta_ids state upd w :
  rag_meta_ids (fst (apply_update E state upd w)) =
  last_value (rag_meta_ids state) (rag_meta_ids upd).
Proof. destruct (apply_update_shape state upd w) as [m ->]. done. Qed.

Lemma apply_update_handoff_required state upd w :
  handoff_required (fst (apply_update E state upd w)) =
  last_value (handoff_required state) (handoff_required upd).
Proof. destruct (apply_update_shape state upd w) as [m ->]. done. Qed.

Lemma apply_update_route state upd w :
  route (fst (apply_update E state upd w)) =
  last_value (route state) (route upd).
Proof. destruct (apply_update_shape state upd w) as [m ->]. done. Qed.

Lemma last_value_same {A} (o : option A) : last_value o o = o.
Proof. by destruct o. Qed.

(** What each stage writes to the last-value channels. *)
Lemma router_node_writes state w upd w' :
  router_node E state w = (inr upd, w') ->
  upd = state \/
  (rag_meta_ids upd = None /\ handoff_required upd = None /\
   handoff_reason upd = None /\ booking_tool_steps upd = None /\
   last_tool_signature upd = None /\ repeat_tool_count upd = None).
Proof.
  unfold router_node. run_monad. split_calls; intros [= <- <-]; simpl; auto 10.
Qed.

Lemma rag_node_writes state w upd w' :
  rag_node E state w = (inr upd, w') ->
  route upd = None /\ handoff_required upd = None /\
  handoff_reason upd = None /\ booking_tool_steps upd = None /\
  last_tool_signature upd = None /\ repeat_tool_count upd = None.
Proof.
  unfold rag_node. run_monad. split_calls; intros [= <- <-]; simpl; auto 10.
Qed.

Lemma booking_llm_node_writes state w upd w' :
  booking_llm_node E state w = (inr upd, w') ->
  route upd = None /\ rag_meta_ids upd = None /\ handoff_required upd = None /\
  handoff_reason upd = None /\ booking_tool_steps upd = None /\
  exists reps, repeat_tool_count upd = Some reps /\
    (reps = 0 \/ reps = get (repeat_tool_count state) 0 + 1).
Proof.
  unfold booking_llm_node. run_monad. split_calls; intros [= <- <-]; simpl;
    repeat split; eauto.
Qed.

Lemma tools_wrapper_writes state w upd w' :
  tools_wrapper E state w = (inr upd, w') ->
  route upd = None /\ rag_meta_ids upd = None /\ handoff_required upd = None /\
  handoff_reason upd = None /\ last_tool_signature upd = None /\
  repeat_tool_count upd = None /\
  booking_tool_steps upd = Some (get (booking_tool_steps state) 0 + 1).
Proof.
  unfold tools_wrapper. run_monad. split_calls; intros [= <- <-]; simpl; auto 10.
Qed.

Lemma handoff_node_writes state w upd w' :
  handoff_node E state w = (inr upd, w') ->
  upd = state \/
  (route upd = None /\ rag_meta_ids upd = None /\ booking_tool_steps upd = None /\
   last_tool_signature upd = None /\ repeat_tool_count upd = None).
Proof.
  unfold handoff_node. run_monad. split_calls; intros [= <- <-]; simpl; auto 10.
Qed.

Lemma booking_should_continue_inv state w key w' :
  booking_should_continue E state w = (inr key, w') ->
  w' = w /\
  (key = "end" \/
   key = "continue" /\
   get (booking_tool_steps state) 0 < MAX_TOOL_STEPS E /\
   get (repeat_tool_count state) 0 < 2 /\
   exists msgs m, messages state = Some msgs /\ last msgs = Some m /\
                  has_tool_calls m = true).
Proof.
  unfold booking_should_continue.
  destruct (MAX_TOOL_STEPS E <=? _) eqn:Hmax; [intros [= <- <-]; auto|].
  open_messages state.
  destruct (has_tool_calls m) eqn:Htc; [|intros [= <- <-]; auto].
  destruct (2 <=? _) eqn:Hrep; intros [= <- <-]; [auto|].
  split; [done|]. right. repeat split; try lia. eauto.
Qed.

(** The edge out of the booking generator leads to the tool executor only
    below the step bound, below the repeat bound and on a tool call. *)
Lemma next_node_booking_continue state w n w' :
  next_node E N_booking_llm state w = (inr (To n), w') ->
  n = N_tools /\ w' = w /\
  get (booking_tool_steps state) 0 < MAX_TOOL_STEPS E /\
  get (repeat_tool_count state) 0 < 2 /\
  exists msgs m, messages state = Some msgs /\ last msgs = Some m /\
                 has_tool_calls m = true.
Proof.
  unfold next_node, bind.
  destruct (booking_should_continue E state w) as [[exc|key] w1] eqn:H; [done|].
  apply booking_should_continue_inv in H as [-> [->|(-> & H)]]; simpl.
  - done.
  - intros [= <- <-]. tauto.
Qed.

Lemma tool_rounds_snoc log n :
  tool_rounds (log ++ [n]) =
  (tool_rounds log + if Node_eqb n N_tools then 1 else 0)%nat.
Proof.
  unfold tool_rounds. rewrite filter_app, length_app.
  f_equal. by destruct n.
Qed.

End ChannelFacts.

(** ** The booking tool loop *)
Section BookingLoop.
Context {W : Type} (E : Env W).

(** Rounds the step bound still allows from a state. *)
Definition budget (state : State) : nat :=
  Z.to_nat (MAX_TOOL_STEPS E - get (booking_tool_steps state) 0).

(** Rounds still allowed when the tool executor is about to run. *)
Definition rounds_left (n : Node) (state : State) : nat :=
  match n with
  | N_tools =>
      S (Z.to_nat (MAX_TOOL_STEPS E - (get (booking_tool_steps state) 0 + 1)))
  | _ => budget state
  end.

Definition steps_needed (n : Node) (state : State) : nat :=
  match n with
  | N_tools => 2 * rounds_left n state
  | _ => 2 * rounds_left n state + 1
  end.

Lemma tools_then_steps state w upd w' w0 :
  tools_wrapper E state w = (inr upd, w') ->
  get (booking_tool_steps (fst (apply_update E state upd w0))) 0 =
  get (booking_tool_steps state) 0 + 1.
Proof.
  intros H%tools_wrapper_writes.
  rewrite apply_update_booking_tool_steps.
  destruct H as (_ & _ & _ & _ & _ & _ & ->). done.
Qed.

Lemma booking_llm_then_steps state w upd w' w0 :
  booking_llm_node E state w = (inr upd, w') ->
  booking_tool_steps (fst (apply_update E state upd w0)) =
  booking_tool_steps state.
Proof.
  intros H%booking_llm_node_writes.
  rewrite apply_update_booking_tool_steps.
  destruct H as (_ & _ & _ & _ & -> & _). done.
Qed.

Lemma run_graph_step steps tid n state sys :
  run_graph E (S steps) tid n state sys =
  let log := (node_log sys ++ [n])%list in
  match exec_node E n state (world sys) with
  | (inl exc, w) => (Raised exc, mkSys w (checkpoints sys) log)
  | (inr upd, w) =>
      let (state', w') := apply_update E state upd w in
      let cps := <[tid := state']> (checkpoints sys) in
      match next_node E n state' w' with
      | (inl exc, w'') => (Raised exc, mkSys w'' cps log)
      | (inr END, w'') =>
          (match steps with O => OutOfSteps | S _ => Done state' end,
           mkSys w'' cps log)
      | (inr (To n'), w'') => run_graph E steps tid n' state' (mkSys w'' cps log)
      end
  end.
Proof. reflexivity. Qed.

(** From either node of the loop the run adds at most [rounds_left]
    tool-executor rounds to the log, and it does not run out of steps when
    it is given more than [steps_needed] of them. *)
Lemma run_graph_loop steps tid :
  forall n state sys,
    n = N_booking_llm \/ n = N_tools ->
    let r := run_graph E steps tid n state sys in
    (tool_rounds (node_log (snd r)) <=
       tool_rounds (node_log sys) + rounds_left n state)%nat /\
    ((steps_needed n state < steps)%nat -> fst r <> OutOfSteps).
Proof.
  induction steps as [|steps IH]; intros n state sys Hn.
  - simpl. split; lia.
  - destruct Hn as [-> | ->]; rewrite run_graph_step; cbv zeta.
    + change (exec_node E N_booking_llm) with (booking_llm_node E).
      destruct (booking_llm_node E state (world sys)) as [[exc|upd] w] eqn:Hex.
      { cbn [fst snd node_log]. rewrite tool_rounds_snoc. simpl. split; [lia|done]. }
      pose proof (booking_llm_then_steps _ _ _ _ w Hex) as Hsame.
      destruct (apply_update E state upd w) as [state' w'] eqn:Hup.
      simpl in Hsame.
      destruct (next_node E N_booking_llm state' w') as [[exc|[n'|]] w''] eqn:Hnext.
      { cbn [fst snd node_log]. rewrite tool_rounds_snoc. simpl. split; [lia|done]. }
      2:{ cbn [fst snd node_log]. rewrite tool_rounds_snoc. simpl. split; [lia|].
          unfold steps_needed. destruct steps; [lia|done]. }
      apply next_node_booking_continue in Hnext as (-> & -> & Hlt & _).
      specialize (IH N_tools state'
                    (mkSys w' (<[tid:=state']> (checkpoints sys))
                       (node_log sys ++ [N_booking_llm]))
                    (or_intror eq_refl)).
      cbn [fst snd node_log] in IH. rewrite tool_rounds_snoc in IH. simpl in IH.
      unfold steps_needed, rounds_left, budget in *. rewrite Hsame in *.
      destruct IH as [IH1 IH2]. split; [lia|]. intros Hs. apply IH2. lia.
    + change (exec_node E N_tools) with (tools_wrapper E).
      destruct (tools_wrapper E state (world sys)) as [[exc|upd] w] eqn:Hex.
      { cbn [fst snd node_log]. rewrite tool_rounds_snoc. simpl. split; [lia|done]. }
      pose proof (tools_then_steps _ _ _ _ w Hex) as Hinc.
      destruct (apply_update E state upd w) as [state' w'] eqn:Hup.
      simpl in Hinc. simpl next_node. unfold ret.
      specialize (IH N_booking_llm state'
                    (mkSys w' (<[tid:=state']> (checkpoints sys))
                       (node_log sys ++ [N_tools]))
                    (or_introl eq_refl)).
      cbn [fst snd node_log] in IH. rewrite tool_rounds_snoc in IH. simpl in IH.
      unfold steps_needed, rounds_left, budget in *. rewrite Hinc in *.
      destruct IH as [IH1 IH2]. split; [lia|]. intros Hs. apply IH2. lia.
Qed.

(** C1. The booking tool loop terminates for every behaviour of the
    generator and of the tool executor: started at the booking generator in
    a state with [booking_tool_steps = s], a run performs at most
    [MAX_TOOL_STEPS - s] tool-executor rounds, and when the recursion
    limit leaves it at least [2 * (MAX_TOOL_STEPS - s) + 2] steps, one more
    than the stages such a run can take, it stops by itself and not by the
    limit. The edge to the tool executor is refused once
    [booking_tool_steps >= MAX_TOOL_STEPS]; each tool-executor round adds
    exactly one to [booking_tool_steps]; and whatever [MAX_TOOL_STEPS] is,
    the edge is refused when [repeat_tool_count >= 2] or when the latest
    message carries no tool call. *)
Theorem booking_loop_terminates :
  (forall steps tid state sys,
     let s := get (booking_tool_steps state) 0 in
     let r := run_graph E steps tid N_booking_llm state sys in
     (tool_rounds (node_log (snd r)) <=
        tool_rounds (node_log sys) + Z.to_nat (MAX_TOOL_STEPS E - s))%nat /\
     ((2 * Z.to_nat (MAX_TOOL_STEPS E - s) + 2 <= steps)%nat ->
      fst r <> OutOfSteps)) /\
  (forall state w,
     MAX_TOOL_STEPS E <= get (booking_tool_steps state) 0 ->
     booking_should_continue E state w = (inr "end", w)) /\
  (forall state w upd w' w0,
     tools_wrapper E state w = (inr upd, w') ->
     booking_tool_steps (fst (apply_update E state upd w0)) =
     Some (get (booking_tool_steps state) 0 + 1)) /\
  (forall state w n w',
     2 <= get (repeat_tool_count state) 0 \/
     (forall msgs m, messages state = Some msgs -> last msgs = Some m ->
                     has_tool_calls m = false) ->
     next_node E N_booking_llm state w <> (inr (To n), w')).
Proof.
  split; [|split; [|split]].
  - intros steps tid state sys.
    destruct (run_graph_loop steps tid N_booking_llm state sys
                (or_introl eq_refl)) as [H1 H2].
    split; [exact H1|]. intros Hs. apply H2. simpl. unfold budget. lia.
  - intros state w H. unfold booking_should_continue.
    apply Z.leb_le in H. by rewrite H.
  - intros state w upd w' w0 H%tools_wrapper_writes.
    rewrite apply_update_booking_tool_steps.
    destruct H as (_ & _ & _ & _ & _ & _ & ->). done.
  - intros state w n w' H Hnext.
    apply next_node_booking_continue in Hnext
      as (_ & _ & _ & Hrep & msgs & m & Hm & Hl & Htc).
    destruct H as [H|H]; [lia|]. rewrite (H _ _ Hm Hl) in Htc. done.
Qed.

End BookingLoop.

(** ** The [add_messages] reducer on messages that already have ids *)
Local Open Scope list_scope.

Section ReducerFacts.
Context {W : Type} (E : Env W).

Lemma assign_ids_present l w :
  Forall (fun m => is_Some (msg_id m)) l -> assign_ids E l w = (l, w).
Proof.
  induction 1 as [|m l [u Hm] _ IH]; simpl; [done|].
  unfold assign_id. rewrite Hm, IH. done.
Qed.

Lemma index_by_id_absent id l :
  id ∉ map msg_id l -> index_by_id id l = None.
Proof.
  induction l as [|m l IH]; simpl; [done|].
  intros H. apply not_elem_of_cons in H as [Hne Hl].
  rewrite (IH Hl). rewrite bool_decide_eq_false_2; done.
Qed.

Lemma index_by_id_middle pre m post :
  NoDup (map msg_id (pre ++ m :: post)) ->
  index_by_id (msg_id m) (pre ++ m :: post) = Some (length pre).
Proof.
  induction pre as [|p pre IH]; simpl; intros H; apply NoDup_cons in H as [Hp H].
  - rewrite index_by_id_absent; [|done]. by rewrite bool_decide_eq_true_2.
  - by rewrite IH.
Qed.

Lemma merge_one_present pre m post :
  NoDup (map msg_id (pre ++ m :: post)) ->
  merge_one (pre ++ m :: post) m = pre ++ m :: post.
Proof.
  intros H. unfold merge_one. rewrite index_by_id_middle; [|done].
  apply list_insert_id. by apply list_lookup_middle.
Qed.

Lemma merge_suffix suf : forall pre,
  NoDup (map msg_id (pre ++ suf)) ->
  fold_left merge_one suf (pre ++ suf) = pre ++ suf.
Proof.
  induction suf as [|m suf IH]; intros pre H; simpl; [done|].
  rewrite merge_one_present; [|done].
  rewrite (cons_middle m pre suf), app_assoc. apply IH.
  by rewrite <- app_assoc.
Qed.

(** Writing a channel's own messages back leaves the channel as it is. *)
Lemma add_messages_same l w : ids_ok l -> add_messages E l l w = (l, w).
Proof.
  intros [Hids Hnd]. unfold add_messages.
  rewrite !assign_ids_present; [|done..].
  f_equal. exact (merge_suffix l [] Hnd).
Qed.

Lemma apply_update_same state msgs w :
  messages state = Some msgs -> ids_ok msgs ->
  apply_update E state state w = (state, w).
Proof.
  intros Hm Hok. unfold apply_update. rewrite Hm. simpl.
  rewrite add_messages_same; [|done]. rewrite !last_value_same.
  destruct state; simpl in *. by rewrite Hm.
Qed.

End ReducerFacts.

(** ** The stages *)
Section StageFacts.
Context {W : Type} (E : Env W).

Lemma signature_truthy tc : Str.truthy (signature E tc) = true.
Proof. unfold signature. by destruct (tc_name tc). Qed.

(** C8. On a state whose most recent message is not user-authored the
    router stage and the handoff stage do nothing: each returns the state
    it was given, with the world as it was, whatever the generators would
    have answered; and writing that return value to the channels (whose
    messages carry their ids) leaves every field, the message list
    included, as it was. *)
Theorem router_and_handoff_skip_generated state msgs m w :
  messages state = Some msgs ->
  last msgs = Some m ->
  is_human m = false ->
  router_node E state w = (inr state, w) /\
  handoff_node E state w = (inr state, w) /\
  (ids_ok msgs -> apply_update E state state w = (state, w)).
Proof.
  intros Hm Hl Hh. repeat split.
  - unfold router_node. read_messages Hm Hl. by rewrite Hh.
  - unfold handoff_node. read_messages Hm Hl. by rewrite Hh.
  - intros Hok. by eapply apply_update_same.
Qed.

(** C4. When the router's decision has confidence below 0.55 and a route
    other than general, the stage writes [route = general] and appends one
    assistant message whose text is neither empty nor whitespace only: the
    fixed clarifying question when the decision's reply is empty or made
    of whitespace characters only (those of [str.isspace], the ones
    outside ASCII included), the decision's reply otherwise. *)
Theorem router_low_confidence state msgs m decision w w' :
  messages state = Some msgs ->
  last msgs = Some m ->
  is_human m = true ->
  router_llm E (System (ROUTER_PROMPT E) :: msgs) w = (inr decision, w') ->
  (rd_confidence decision <? confidence_threshold)%float = true ->
  rd_route decision <> general ->
  exists reply,
    router_node E state w =
      (inr (mkState (Some [AI reply]) (Some general)
              None None None None None None), w') /\
    reply <> "" /\
    ~ whitespace_only reply /\
    (whitespace_only (rd_reply decision) -> reply = CLARIFY) /\
    (~ whitespace_only (rd_reply decision) -> reply = rd_reply decision).
Proof.
  intros Hm Hl Hh Hllm Hconf Hroute.
  assert (Hne : Route_eqb (rd_route decision) general = false)
    by (by destruct (rd_route decision)).
  assert (Hc : ~ whitespace_only CLARIFY).
  { rewrite <- StrFacts.blank_spec. by vm_compute. }
  destruct (Str.truthy (Str.strip (rd_reply decision))) eqn:Ht.
  - assert (Hw : ~ whitespace_only (rd_reply decision)).
    { rewrite <- StrFacts.strip_whitespace_only. congruence. }
    exists (rd_reply decision). split_and!; try done.
    + unfold router_node. read_messages Hm Hl. rewrite Hh. simpl.
      by rewrite Hllm, Hconf, Hne, Ht.
    + intros Heq. apply Hw. rewrite Heq. constructor.
  - assert (Hw : whitespace_only (rd_reply decision))
      by (by apply StrFacts.strip_whitespace_only).
    exists CLARIFY. split_and!; try done.
    unfold router_node. read_messages Hm Hl. rewrite Hh. simpl.
    by rewrite Hllm, Hconf, Hne, Ht.
Qed.

(** C10. The booking generator stage derives the repeat-detection
    signature from the first proposed tool call alone: the stored signature
    and the new repeat count are functions of that call and of the state,
    whatever further calls the result carries. A result without a tool call
    stores the empty signature and resets the count to 0, and the count is 0
    whenever the stored signature is empty, whatever signature the state
    held before. *)
Theorem booking_signature_first_call state msgs ai w w' :
  messages state = Some msgs ->
  booking_llm E (System (BOOKING_PROMPT E) :: msgs) w = (inr ai, w') ->
  exists sig reps,
    booking_llm_node E state w =
      (inr (mkState (Some [ai]) None None None None None
              (Some sig) (Some reps)), w') /\
    (forall tc rest,
       is_ai ai = true -> tool_calls ai = tc :: rest ->
       sig = signature E tc /\
       reps = if bool_decide (last_tool_signature state = Some (signature E tc))
              then get (repeat_tool_count state) 0 + 1 else 0) /\
    (has_tool_calls ai = false -> sig = "" /\ reps = 0) /\
    (sig = "" -> reps = 0).
Proof.
  intros Hm Hllm. unfold booking_llm_node. run_monad. rewrite Hm. simpl.
  rewrite Hllm. unfold has_tool_calls.
  destruct (is_ai ai) eqn:Hai; [destruct (tool_calls ai) as [|tc rest] eqn:Htc|];
    simpl; eexists _, _; (split; [reflexivity|]).
  - repeat split; try done.
  - rewrite signature_truthy. simpl. split; [|split].
    + intros tc' rest' _ [= <- <-]. done.
    + done.
    + intros Hsig. pose proof (signature_truthy tc) as Ht.
      rewrite Hsig in Ht. done.
  - repeat split; try done.
Qed.

End StageFacts.

(** ** Fields across stages and turns *)
Section TurnFacts.
Context {W : Type} (E : Env W).

Lemma begin_turn_state text tid sys :
  fst (begin_turn E (user_input text) tid sys) =
  fst (apply_update E (get (checkpoints sys !! tid) empty_dict)
         (user_input text) (world sys)).
Proof.
  unfold begin_turn. by destruct (apply_update E _ _ _).
Qed.

Lemma begin_turn_checkpoints text tid sys :
  checkpoints (snd (begin_turn E (user_input text) tid sys)) =
  <[tid := fst (begin_turn E (user_input text) tid sys)]> (checkpoints sys).
Proof.
  unfold begin_turn. by destruct (apply_update E _ _ _).
Qed.

(** C2, as the code has it. [handoff_required] is written by the handoff
    stage alone: every other stage execution leaves it as it was, and so
    does the start of a new turn on the thread; the handoff stage, run on a
    user-authored latest message, overwrites it with the decision's
    [handoff_required], be it true or false. *)
Theorem handoff_required_written_by_handoff_only :
  (forall n state w upd w' w0,
     n <> N_handoff ->
     exec_node E n state w = (inr upd, w') ->
     handoff_required (fst (apply_update E state upd w0)) =
     handoff_required state) /\
  (forall text tid sys,
     handoff_required (fst (begin_turn E (user_input text) tid sys)) =
     handoff_required (get (checkpoints sys !! tid) empty_dict)) /\
  (forall state msgs m w decision w' w0,
     messages state = Some msgs ->
     last msgs = Some m ->
     is_human m = true ->
     handoff_llm E
       (System (if Str.truthy (HANDOFF_PROMPT E) then HANDOFF_PROMPT E
                else ROUTER_PROMPT E) :: msgs) w = (inr decision, w') ->
     exists upd,
       handoff_node E state w = (inr upd, w') /\
       handoff_required (fst (apply_update E state upd w0)) =
       Some (hd_handoff_required decision)).
Proof.
  split; [|split].
  - intros n state w upd w' w0 Hn Hex.
    rewrite apply_update_handoff_required.
    destruct n; simpl in Hex; try done.
    + apply router_node_writes in Hex as [->|(_ & -> & _)];
        [apply last_value_same|done].
    + apply rag_node_writes in Hex as (_ & -> & _). done.
    + apply booking_llm_node_writes in Hex as (_ & _ & -> & _). done.
    + apply tools_wrapper_writes in Hex as (_ & _ & -> & _). done.
  - intros text tid sys. rewrite begin_turn_state.
    by rewrite apply_update_handoff_required.
  - intros state msgs m w decision w' w0 Hm Hl Hh Hllm.
    eexists. split.
    + unfold handoff_node. read_messages Hm Hl. rewrite Hh. simpl.
      rewrite Hllm. reflexivity.
    + by rewrite apply_update_handoff_required.
Qed.

Lemma exec_node_counters n state w upd w' w0 :
  exec_node E n state w = (inr upd, w') ->
  counters_nonneg state ->
  counters_nonneg (fst (apply_update E state upd w0)).
Proof.
  unfold counters_nonneg.
  rewrite apply_update_booking_tool_steps, apply_update_repeat_tool_count.
  intros Hex [Hs Hr]. destruct n; simpl in Hex.
  - apply router_node_writes in Hex as [->|(_ & _ & _ & -> & _ & ->)];
      [by rewrite !last_value_same|done].
  - apply rag_node_writes in Hex as (_ & _ & _ & -> & _ & ->). done.
  - apply booking_llm_node_writes in Hex
      as (_ & _ & _ & _ & -> & reps & -> & Hreps).
    simpl. split; [done|]. lia.
  - apply tools_wrapper_writes in Hex as (_ & _ & _ & _ & _ & -> & ->).
    simpl. split; [lia|done].
  - apply handoff_node_writes in Hex as [->|(_ & _ & -> & _ & ->)];
      [by rewrite !last_value_same|done].
Qed.

Lemma checkpoints_nonneg_insert (cps : gmap string State) tid state :
  (forall t st, cps !! t = Some st -> counters_nonneg st) ->
  counters_nonneg state ->
  forall t st, <[tid := state]> cps !! t = Some st -> counters_nonneg st.
Proof.
  intros Hcps Hst t st. destruct (decide (tid = t)) as [->|Hne].
  - rewrite lookup_insert_eq. by intros [= <-].
  - rewrite lookup_insert_ne; [|done]. apply Hcps.
Qed.

Lemma run_graph_counters steps tid :
  forall n state sys,
    counters_nonneg state -> checkpoints_nonneg sys ->
    let r := run_graph E steps tid n state sys in
    checkpoints_nonneg (snd r) /\
    (forall final, fst r = Done final -> counters_nonneg final).
Proof.
  induction steps as [|steps IH]; intros n state sys Hst Hsys.
  - simpl. split; [done|]. intros final [=].
  - rewrite run_graph_step. cbv zeta.
    destruct (exec_node E n state (world sys)) as [[exc|upd] w] eqn:Hex.
    { simpl. split; [done|]. intros final [=]. }
    pose proof (exec_node_counters _ _ _ _ _ w Hex Hst) as Hst'.
    destruct (apply_update E state upd w) as [state' w'].
    simpl in Hst'.
    assert (Hcps : forall t st,
               <[tid := state']> (checkpoints sys) !! t = Some st ->
               counters_nonneg st)
      by (by apply checkpoints_nonneg_insert).
    destruct (next_node E n state' w') as [[exc|[n'|]] w''].
    + simpl. split; [done|]. intros final [=].
    + apply IH; done.
    + simpl. split; [done|]. destruct steps; [done|]. by intros final [= <-].
Qed.

Lemma begin_turn_counters text tid sys :
  booking_tool_steps (fst (begin_turn E (user_input text) tid sys)) =
    booking_tool_steps (get (checkpoints sys !! tid) empty_dict) /\
  repeat_tool_count (fst (begin_turn E (user_input text) tid sys)) =
    repeat_tool_count (get (checkpoints sys !! tid) empty_dict) /\
  rag_meta_ids (fst (begin_turn E (user_input text) tid sys)) =
    rag_meta_ids (get (checkpoints sys !! tid) empty_dict).
Proof.
  rewrite begin_turn_state.
  by rewrite apply_update_booking_tool_steps, apply_update_repeat_tool_count,
    apply_update_rag_meta_ids.
Qed.

Lemma checkpoint_counters (sys : Sys W) tid :
  checkpoints_nonneg sys ->
  counters_nonneg (get (checkpoints sys !! tid) empty_dict).
Proof.
  intros Hsys. destruct (checkpoints sys !! tid) as [st|] eqn:H; simpl.
  - by eapply Hsys.
  - by split.
Qed.

(** C3, as the code has it. The start of a new user turn writes the user
    message and nothing else: [booking_tool_steps], [repeat_tool_count] and
    [rag_meta_ids] begin the turn with the values the thread's checkpoint
    holds, that is, the ones the previous turn left; they read as 0, 0 and
    the empty list on a thread that has no checkpoint. Both counters are
    never negative: each stage execution and each whole run of the graph
    keeps them so, in the returned state and in every checkpoint. *)
Theorem turn_start_keeps_counters :
  (forall text tid sys,
     let before := get (checkpoints sys !! tid) empty_dict in
     let start := fst (begin_turn E (user_input text) tid sys) in
     booking_tool_steps start = booking_tool_steps before /\
     repeat_tool_count start = repeat_tool_count before /\
     rag_meta_ids start = rag_meta_ids before) /\
  (forall text tid sys,
     checkpoints sys !! tid = None ->
     let start := fst (begin_turn E (user_input text) tid sys) in
     get (booking_tool_steps start) 0 = 0 /\
     get (repeat_tool_count start) 0 = 0 /\
     get (rag_meta_ids start) [] = []) /\
  (forall n state w upd w' w0,
     exec_node E n state w = (inr upd, w') ->
     counters_nonneg state ->
     counters_nonneg (fst (apply_update E state upd w0))) /\
  (forall text cfg sys,
     checkpoints_nonneg sys ->
     let r := app_invoke E (user_input text) cfg sys in
     checkpoints_nonneg (snd r) /\
     (forall final, fst r = inr final -> counters_nonneg final)).
Proof.
  split; [|split; [|split]].
  - intros text tid sys. apply begin_turn_counters.
  - intros text tid sys Hnone. cbv zeta.
    destruct (begin_turn_counters text tid sys) as (-> & -> & ->).
    by rewrite Hnone.
  - apply exec_node_counters.
  - intros text cfg sys Hsys. unfold app_invoke.
    pose proof (begin_turn_counters text (thread_id cfg) sys) as (Hs & Hr & _).
    pose proof (begin_turn_checkpoints text (thread_id cfg) sys) as Hcp.
    pose proof (checkpoint_counters sys (thread_id cfg) Hsys) as Hold.
    destruct (begin_turn E (user_input text) (thread_id cfg) sys)
      as [state1 sys1].
    simpl in Hs, Hr, Hcp.
    assert (H1 : counters_nonneg state1).
    { unfold counters_nonneg in *. by rewrite Hs, Hr. }
    assert (Hsys1 : checkpoints_nonneg sys1).
    { unfold checkpoints_nonneg. rewrite Hcp.
      by apply checkpoints_nonneg_insert. }
    pose proof (run_graph_counters (recursion_limit cfg) (thread_id cfg)
                  N_router state1 sys1 H1 Hsys1) as [Hc Hd].
    destruct (run_graph E _ _ N_router state1 sys1) as [[final|exc|] sys'];
      simpl in *; (split; [done|]).
    + intros f [= <-]. by apply Hd.
    + intros f [=].
    + intros f [=].
Qed.

End TurnFacts.

(** ** The appointment store *)
Module ToolsFacts.
Import Tools.

Section Slot.
Variables (service_ date_ time_ : string).

Abbreviation matches := (slot_matches service_ date_ time_).
Abbreviation hit := (fun r => matches r && is_free r).

Lemma matches_key r : matches r = true <-> slot_key r = (service_, date_, time_).
Proof.
  unfold slot_matches, slot_key. rewrite !andb_true_iff, !String.eqb_eq.
  split; [intros [[-> ->] ->]; done|intros [= -> -> ->]; done].
Qed.

Lemma is_free_status r : is_free r = true <-> status r = "free".
Proof. apply String.eqb_eq. Qed.

(** With one row per key, the row of a key splits the table into rows
    of other keys. *)
Lemma unique_split db r :
  unique_slots db -> In r db -> matches r = true ->
  exists pre post,
    db = pre ++ r :: post /\
    (forall x, In x pre -> matches x = false) /\
    (forall x, In x post -> matches x = false).
Proof.
  intros Hu Hin Hr. apply in_split in Hin as (pre & post & ->).
  exists pre, post. split; [done|].
  unfold unique_slots in Hu. rewrite map_app in Hu. simpl in Hu.
  apply NoDup_app in Hu as (_ & Hpre & Hpost%NoDup_cons).
  destruct Hpost as [Hpost _]. apply matches_key in Hr.
  split; intros x Hx; apply not_true_is_false; intros Hm%matches_key.
  - apply (Hpre (slot_key x)).
    + apply list_elem_of_fmap. exists x. split; [done|by apply list_elem_of_In].
    + rewrite Hm, <- Hr. apply list_elem_of_here.
  - apply Hpost. rewrite Hr, <- Hm.
    apply list_elem_of_fmap. exists x. split; [done|by apply list_elem_of_In].
Qed.

Lemma map_untouched (f : Appointment -> Appointment) l :
  (forall x, In x l -> matches x = false) ->
  map (fun r => if hit r then f r else r) l = l.
Proof.
  induction l as [|x l IH]; simpl; intros H; [done|].
  rewrite (H x) by auto. simpl. f_equal. apply IH. auto.
Qed.

Lemma filter_untouched l :
  (forall x, In x l -> matches x = false) -> List.filter hit l = [].
Proof.
  induction l as [|x l IH]; simpl; intros H; [done|].
  rewrite (H x) by auto. simpl. apply IH. auto.
Qed.

Lemma find_untouched l k :
  (forall x, In x l -> matches x = false) ->
  List.find matches (l ++ k) = List.find matches k.
Proof.
  induction l as [|x l IH]; simpl; intros H; [done|].
  rewrite (H x) by auto. apply IH. auto.
Qed.

Lemma find_absent l :
  (forall x, In x l -> matches x = false) -> List.find matches l = None.
Proof.
  intros H. rewrite <- (app_nil_r l). by rewrite find_untouched.
Qed.

Lemma update_free_split pre r post customer_name_ phone_ now :
  (forall x, In x pre -> matches x = false) ->
  (forall x, In x post -> matches x = false) ->
  matches r = true ->
  update_free (pre ++ r :: post) service_ date_ time_ customer_name_ phone_ now =
  if is_free r
  then (pre ++ booked_by customer_name_ phone_ now r :: post, 1)
  else (pre ++ r :: post, 0).
Proof.
  intros Hpre Hpost Hr. unfold update_free.
  rewrite map_app, List.filter_app. simpl.
  rewrite !map_untouched, !filter_untouched by done.
  rewrite Hr. simpl. by destruct (is_free r).
Qed.

Lemma update_free_absent db customer_name_ phone_ now :
  (forall x, In x db -> matches x = false) ->
  update_free db service_ date_ time_ customer_name_ phone_ now = (db, 0).
Proof.
  intros H. unfold update_free. by rewrite map_untouched, filter_untouched.
Qed.

Lemma check_split pre r post :
  (forall x, In x pre -> matches x = false) ->
  matches r = true ->
  core_check_slot_availability (pre ++ r :: post) service_ date_ time_ =
  if String.eqb (status r) "free" then "available" else "booked".
Proof.
  intros Hpre Hr. unfold core_check_slot_availability.
  rewrite find_untouched by done. simpl. by rewrite Hr.
Qed.

(** Booking a row that is there: success when it is free, "booked" and
    no change otherwise. *)
Lemma core_book_slot_split pre r post customer_name_ phone_ now :
  (forall x, In x pre -> matches x = false) ->
  (forall x, In x post -> matches x = false) ->
  matches r = true ->
  core_book_slot (pre ++ r :: post) service_ date_ time_ customer_name_ phone_ now =
  if is_free r
  then ("success", pre ++ booked_by customer_name_ phone_ now r :: post)
  else ("booked", pre ++ r :: post).
Proof.
  intros Hpre Hpost Hr. unfold core_book_slot.
  rewrite update_free_split by done.
  destruct (is_free r) eqn:Hfree; simpl; [done|].
  rewrite check_split by done. unfold is_free in Hfree. by rewrite Hfree.
Qed.

Lemma core_book_slot_absent db customer_name_ phone_ now :
  (forall x, In x db -> matches x = false) ->
  core_book_slot db service_ date_ time_ customer_name_ phone_ now =
  ("not_found", db).
Proof.
  intros H. unfold core_book_slot. rewrite update_free_absent by done.
  simpl. unfold core_check_slot_availability. by rewrite find_absent.
Qed.

(** C7, as the code has it. On a table in which a (service, date, time)
    key names at most one row, [core_book_slot] returns "success" exactly
    when a row of that key exists with status free, and then that row, and
    no other, is replaced by a row of the same key with status booked, the
    given customer name, the given phone and the time of the update; a row
    of that key that is not free gives "booked" and no row of that key
    gives "not_found", the table staying as it was in both cases. So a
    second booking attempt for a slot that was free, made after the first,
    gets "booked" and changes nothing. *)
Theorem core_book_slot_conditional db customer_name_ phone_ now :
  unique_slots db ->
  let res := fst (core_book_slot db service_ date_ time_ customer_name_ phone_ now) in
  let db' := snd (core_book_slot db service_ date_ time_ customer_name_ phone_ now) in
  (res = "success" <->
   exists r, In r db /\ matches r = true /\ status r = "free") /\
  (forall r, In r db -> matches r = true -> status r = "free" ->
     exists pre r' post,
       db = pre ++ r :: post /\
       db' = pre ++ r' :: post /\
       service r' = service_ /\ date r' = date_ /\ time r' = time_ /\
       status r' = "booked" /\
       customer_name r' = Some customer_name_ /\
       phone r' = Some phone_ /\
       created_at r' = Some now) /\
  (forall r, In r db -> matches r = true -> status r <> "free" ->
     res = "booked" /\ db' = db) /\
  ((forall r, In r db -> matches r = false) ->
     res = "not_found" /\ db' = db) /\
  (forall r name2 phone2 now2,
     In r db -> matches r = true -> status r = "free" ->
     res = "success" /\
     core_book_slot db' service_ date_ time_ name2 phone2 now2 = ("booked", db')).
Proof.
  intros Hu. cbv zeta.
  assert (Hrow : forall r, In r db -> matches r = true ->
            exists pre post,
              db = pre ++ r :: post /\
              core_book_slot db service_ date_ time_ customer_name_ phone_ now =
              (if is_free r
               then ("success", pre ++ booked_by customer_name_ phone_ now r :: post)
               else ("booked", pre ++ r :: post)) /\
              (forall x, In x pre -> matches x = false) /\
              (forall x, In x post -> matches x = false)).
  { intros r Hin Hr.
    destruct (unique_split db r Hu Hin Hr) as (pre & post & -> & Hpre & Hpost).
    exists pre, post. by rewrite core_book_slot_split. }
  split; [|split; [|split; [|split]]].
  - split.
    + intros Hres.
      destruct (List.find matches db) as [r|] eqn:Hfind.
      * apply find_some in Hfind as [Hin Hr]. exists r.
        destruct (Hrow r Hin Hr) as (pre & post & _ & Hbook & _).
        rewrite Hbook in Hres.
        destruct (is_free r) eqn:Hfree; [|done].
        by apply is_free_status in Hfree.
      * rewrite core_book_slot_absent in Hres; [done|].
        intros x Hx. apply not_true_is_false. intros Hm.
        by eapply find_none in Hfind; [rewrite Hm in Hfind|].
    + intros (r & Hin & Hr & Hfree%is_free_status).
      destruct (Hrow r Hin Hr) as (pre & post & _ & -> & _).
      by rewrite Hfree.
  - intros r Hin Hr Hfree%is_free_status.
    destruct (Hrow r Hin Hr) as (pre & post & Hdb & -> & _).
    rewrite Hfree. apply matches_key in Hr. injection Hr as Hs Hd Ht.
    exists pre, (booked_by customer_name_ phone_ now r), post.
    split; [done|]. split; [done|]. simpl. by rewrite Hs, Hd, Ht.
  - intros r Hin Hr Hfree.
    destruct (Hrow r Hin Hr) as (pre & post & Hdb & -> & _).
    destruct (is_free r) eqn:Hf; [by apply is_free_status in Hf|].
    by rewrite Hdb.
  - intros H. by rewrite core_book_slot_absent.
  - intros r name2 phone2 now2 Hin Hr Hfree%is_free_status.
    destruct (Hrow r Hin Hr) as (pre & post & Hdb & -> & Hpre & Hpost).
    rewrite Hfree. simpl. split; [done|].
    by rewrite core_book_slot_split.
Qed.

End Slot.

(** The 09:00 cut of the sample table is free; booking it for Bob gives
    "success" and the row with Bob's name and phone, and a second attempt
    gives "booked". *)
Lemma core_book_slot_conditional_witness :
  unique_slots Script.sample_db /\
  core_book_slot Script.sample_db "cut" "2025-01-02" "09:00" "Bob" "5" "now" =
  ("success",
   [mkAppointment "cut" "2025-01-02" "09:00" "booked" (Some "Bob") (Some "5")
      (Some "now");
    mkAppointment "cut" "2025-01-02" "09:30" "booked" (Some "Ann") (Some "1")
      (Some "t0");
    mkAppointment "dye" "2025-01-02" "09:00" "free" None None None]) /\
  core_book_slot
    (snd (core_book_slot Script.sample_db "cut" "2025-01-02" "09:00" "Bob" "5" "now"))
    "cut" "2025-01-02" "09:00" "Eve" "7" "later"
  = ("booked",
     snd (core_book_slot Script.sample_db "cut" "2025-01-02" "09:00" "Bob" "5" "now")).
Proof.
  assert (Hu : unique_slots Script.sample_db).
  { unfold unique_slots.
    apply (bool_decide_unpack (NoDup (map slot_key Script.sample_db))).
    vm_compute. exact I. }
  split; [exact Hu|]. split; [reflexivity|].
  destruct (core_book_slot_conditional "cut" "2025-01-02" "09:00"
              Script.sample_db "Bob" "5" "now" Hu) as (_ & _ & _ & _ & H).
  apply (H (mkAppointment "cut" "2025-01-02" "09:00" "free" None None None)
           "Eve" "7" "later").
  - simpl. tauto.
  - reflexivity.
  - reflexivity.
Defined.

(** C7 as stated fails: it speaks of every store state, and on a table
    that holds two free rows of one key a free slot of that key exists,
    yet the [UPDATE] books both rows, [rowcount] is 2, the answer is
    "booked" and not "success", and the table has changed. *)
Lemma duplicate_rows_are_both_booked :
  let row := mkAppointment "cut" "2025-01-02" "09:00" "free" None None None in
  let db := [row; row] in
  let res := core_book_slot db "cut" "2025-01-02" "09:00" "Bob" "5" "now" in
  (exists r, In r db /\ slot_matches "cut" "2025-01-02" "09:00" r = true /\
             status r = "free") /\
  res = ("booked",
         [mkAppointment "cut" "2025-01-02" "09:00" "booked" (Some "Bob")
            (Some "5") (Some "now");
          mkAppointment "cut" "2025-01-02" "09:00" "booked" (Some "Bob")
            (Some "5") (Some "now")]) /\
  fst res <> "success" /\
  snd res <> db /\
  ~ unique_slots db.
Proof.
  cbv zeta. split.
  { eexists. split; [left; reflexivity|]. split; reflexivity. }
  split; [reflexivity|]. split; [by vm_compute|]. split; [by vm_compute|].
  unfold unique_slots. simpl. intros [H _]%NoDup_cons. apply H. left.
Qed.

End ToolsFacts.

(** ** The invocation service *)
Section RetryFacts.
Context {X : Type} (self : GraphService X).
Variables (message thread : string).

(** The world after [k] runs of the app on the turn's input. *)
Fixpoint world_after (k : nat) (s : X) : X :=
  match k with
  | O => s
  | S k' => world_after k' (snd (_app self (user_input message) (mkConfig thread 20) s))
  end.

(** How the run numbered [k] (from 0) ends. *)
Definition outcome_at (k : nat) (s : X) : Exn + State :=
  fst (_app self (user_input message) (mkConfig thread 20) (world_after k s)).

(** The pause after the failed attempt numbered [attempt] (from 0): half a
    second times the attempt's number counted from 1. *)
Definition backoff (attempt : nat) : Q := (1 # 2) * inject_Z (Z.of_nat attempt + 1).

Lemma outcome_at_S k s :
  outcome_at (S k) s =
  outcome_at k (snd (_app self (user_input message) (mkConfig thread 20) s)).
Proof. reflexivity. Qed.

Lemma attempt_loop_cons attempt rest last_exc cfg h :
  attempt_loop self (attempt :: rest) last_exc message cfg h =
  match _app self (user_input message) cfg (app_world h) with
  | (inr state, s') => (inr state, mkHost s' (slept h))
  | (inl exc, s') =>
      if negb (retryable (classify_exception exc)) || (_max_retries self <=? attempt)
      then (inl exc, mkHost s' (slept h))
      else attempt_loop self rest (Some exc) message cfg
             (mkHost s' (slept h ++ [(1 # 2) * inject_Z (attempt + 1)]%Q))
  end.
Proof.
  simpl. unfold call_app.
  by destruct (_app self _ cfg (app_world h)) as [[exc|state] s'].
Qed.

Lemma attempt_loop_spec k : forall a last_exc h,
  (1 <= k)%nat ->
  Z.of_nat (a + k) = _max_retries self + 1 ->
  let r := attempt_loop self (map Z.of_nat (seq a k)) last_exc message
             (mkConfig thread 20) h in
  exists n,
    (1 <= n <= k)%nat /\
    (forall i, (i < n - 1)%nat ->
       exists exc, outcome_at i (app_world h) = inl exc /\
                   retryable (classify_exception exc) = true) /\
    slept (snd r) = slept h ++ map backoff (seq a (n - 1)) /\
    app_world (snd r) = world_after n (app_world h) /\
    match outcome_at (n - 1) (app_world h) with
    | inr state => fst r = inr state
    | inl exc =>
        fst r = inl exc /\
        (retryable (classify_exception exc) = false \/
         _max_retries self <= Z.of_nat (a + n - 1))
    end.
Proof.
  induction k as [|k IH]; intros a last_exc h Hk Hsum; [lia|].
  cbn [seq map]. cbv zeta. rewrite attempt_loop_cons.
  destruct (_app self (user_input message) (mkConfig thread 20) (app_world h))
    as [[exc|state] s'] eqn:Happ.
  - destruct (negb (retryable (classify_exception exc))
              || (_max_retries self <=? Z.of_nat a)) eqn:Hstop.
    + exists 1%nat. simpl. unfold outcome_at. simpl. rewrite Happ. simpl.
      split; [lia|]. split; [intros i Hi; lia|].
      split; [by rewrite app_nil_r|]. split; [done|]. split; [done|].
      apply orb_true_iff in Hstop as [Hstop|Hstop].
      * left. by destruct (retryable (classify_exception exc)).
      * right. apply Z.leb_le in Hstop. lia.
    + apply orb_false_iff in Hstop as [Hretry Hmore].
      apply negb_false_iff in Hretry. apply Z.leb_gt in Hmore.
      change ((1 # 2) * inject_Z (Z.of_nat a + 1))%Q with (backoff a).
      destruct (IH (S a) (Some exc)
                  (mkHost s' (slept h ++ [backoff a])))
        as (n & Hn & Hearlier & Hslept & Hworld & Hlast); [lia|lia|].
      simpl in Hearlier, Hslept, Hworld, Hlast.
      exists (S n). split; [lia|]. split; [|split; [|split]].
      * intros i Hi. destruct i as [|i].
        -- exists exc. unfold outcome_at. simpl. by rewrite Happ.
        -- rewrite outcome_at_S, Happ. simpl. apply Hearlier. lia.
      * rewrite Hslept, <- app_assoc. f_equal.
        replace (S n - 1)%nat with (S (n - 1)) by lia. done.
      * rewrite Hworld. simpl. by rewrite Happ.
      * replace (S n - 1)%nat with (S (n - 1)) by lia.
        rewrite outcome_at_S, Happ. simpl.
        destruct (outcome_at (n - 1) s') as [e|st]; [|done].
        destruct Hlast as [? [?|?]]; split; auto. right. lia.
  - exists 1%nat. simpl. unfold outcome_at. simpl. rewrite Happ. simpl.
    split; [lia|]. split; [intros i Hi; lia|].
    split; [by rewrite app_nil_r|]. done.
Qed.

(** C6. With a retry bound that is not negative, [invoke] runs the app on
    the same input [n] times, one after the other, for some
    [1 <= n <= MAX_RETRIES + 1]: every run before the last one failed with
    an exception classified retryable, and was followed by a pause of
    0.5 s times its number (0.5 s, 1 s, ...); the last run either succeeded,
    and [invoke] returns its normalized state, or failed with an exception
    that is not retryable or that came when [MAX_RETRIES + 1] runs had been
    made, and [invoke] raises that very exception. *)
Theorem invoke_retry_policy (h : Host X) :
  0 <= _max_retries self ->
  let r := invoke self message thread h in
  exists n,
    (1 <= n)%nat /\ Z.of_nat n <= _max_retries self + 1 /\
    (forall i, (i < n - 1)%nat ->
       exists exc, outcome_at i (app_world h) = inl exc /\
                   retryable (classify_exception exc) = true) /\
    slept (snd r) = slept h ++ map backoff (seq 0 (n - 1)) /\
    app_world (snd r) = world_after n (app_world h) /\
    match outcome_at (n - 1) (app_world h) with
    | inr state => fst r = inr (normalize state)
    | inl exc =>
        fst r = inl exc /\
        (retryable (classify_exception exc) = false \/
         Z.of_nat n = _max_retries self + 1)
    end.
Proof.
  intros Hmax. cbv zeta. unfold invoke, bind, range.
  destruct (attempt_loop_spec (Z.to_nat (_max_retries self + 1)) 0 None h)
    as (n & Hn & Hearlier & Hslept & Hworld & Hlast); [lia|lia|].
  cbv zeta in Hslept, Hworld, Hlast.
  destruct (attempt_loop self _ None message (mkConfig thread 20) h)
    as [[exc|state] h'] eqn:Hloop; cbn [fst snd] in *; unfold ret;
    cbn [fst snd]; exists n; (split; [lia|]); (split; [lia|]);
    (split; [exact Hearlier|]); (split; [exact Hslept|]);
    (split; [exact Hworld|]).
  - destruct (outcome_at (n - 1) (app_world h)) as [e|st]; [|done].
    destruct Hlast as [He Hwhy]. injection He as ->. split; [done|].
    destruct Hwhy as [Hwhy|Hwhy]; [by left|]. right. lia.
  - destruct (outcome_at (n - 1) (app_world h)) as [e|st]; [by destruct Hlast|].
    by injection Hlast as ->.
Qed.

End RetryFacts.

(** With one retry allowed, an app that fails once with a 503 is run twice,
    with one half-second pause in between. *)
Lemma invoke_retry_policy_witness :
  0 <= _max_retries (Script.flaky_svc 1 1) /\
  exists n,
    (1 <= n)%nat /\
    slept (snd (invoke (Script.flaky_svc 1 1) "hello" "t" (mkHost 0%nat []))) =
      map backoff (seq 0 (n - 1)) /\
    app_world (snd (invoke (Script.flaky_svc 1 1) "hello" "t" (mkHost 0%nat []))) =
      world_after (Script.flaky_svc 1 1) "hello" "t" n 0%nat.
Proof.
  assert (H : 0 <= _max_retries (Script.flaky_svc 1 1)) by (simpl; lia).
  split; [exact H|].
  destruct (invoke_retry_policy (Script.flaky_svc 1 1) "hello" "t" (mkHost 0%nat []) H)
    as (n & Hn & _ & _ & Hslept & Hworld & _).
  exists n. auto.
Defined.

Example flaky_once_is_retried :
  invoke (Script.flaky_svc 1 1) "hello" "t" (mkHost 0%nat []) =
  (inr (mkResponse "done" general [] false ""), mkHost 2%nat [backoff 0]).
Proof. reflexivity. Qed.

Example flaky_twice_is_raised :
  invoke (Script.flaky_svc 2 1) "hello" "t" (mkHost 0%nat []) =
  (inl (mkExn "ServiceUnavailable" "503 Service Unavailable"),
   mkHost 2%nat [backoff 0]).
Proof. reflexivity. Qed.

(** ** The step ceiling *)
Section StepLimitFacts.
Context {W : Type} (E : Env W).

Lemma recursion_error_classified :
  classify_exception (GraphRecursionError 20) =
  mkErrorInfo "INTERNAL_ERROR" "Unexpected server error." 500 false
    (Some (exn_str (GraphRecursionError 20))).
Proof. vm_compute. reflexivity. Qed.

Lemma app_invoke_out_of_steps text tid sys sys' :
  exceeds_step_limit E text tid sys sys' ->
  app_invoke E (user_input text) (mkConfig tid 20) sys =
  (inl (GraphRecursionError 20), sys').
Proof.
  unfold exceeds_step_limit, app_invoke. cbn [thread_id recursion_limit].
  destruct (begin_turn E (user_input text) tid sys) as [state1 sys1].
  cbn [fst snd]. by intros ->.
Qed.

(** C9, as the code has it. When a turn uses up the step ceiling the graph
    raises its recursion-limit error; the classifier gives it the kind
    INTERNAL_ERROR with status 500 and marks it not retryable, the
    invocation service makes no second attempt and takes no pause and
    raises that error to its caller, and the route answers with status 500
    and the error kind INTERNAL_ERROR. *)
Theorem step_limit_is_internal_error text tid (h : Host (Sys W)) sys' :
  0 <= MAX_RETRIES E ->
  exceeds_step_limit E text tid (app_world h) sys' ->
  verdict_of (classify_exception (GraphRecursionError 20)) =
    ("INTERNAL_ERROR", 500, false) /\
  invoke (new_GraphService E) text tid h =
    (inl (GraphRecursionError 20), mkHost sys' (slept h)) /\
  chat (mkChatRequest text tid) (new_GraphService E) h =
    (inl (mkHTTPException 500 "INTERNAL_ERROR" "Unexpected server error."),
     mkHost sys' (slept h)).
Proof.
  intros Hmax Hrun.
  assert (Hinvoke : invoke (new_GraphService E) text tid h =
                    (inl (GraphRecursionError 20), mkHost sys' (slept h))).
  { unfold invoke, bind, range. simpl _max_retries.
    destruct (Z.to_nat (MAX_RETRIES E + 1)) as [|k] eqn:Hk; [lia|].
    cbn [seq map]. rewrite attempt_loop_cons. simpl _app.
    rewrite (app_invoke_out_of_steps _ _ _ _ Hrun).
    by rewrite recursion_error_classified. }
  split; [by rewrite recursion_error_classified|]. split; [done|].
  unfold chat. simpl. rewrite Hinvoke.
  by rewrite recursion_error_classified.
Qed.

End StepLimitFacts.

(** ** Concrete turns *)

Lemma runaway_exceeds_step_limit :
  exceeds_step_limit Script.runaway_env "book please" "t"
    Script.sys0 Script.runaway_end.
Proof. unfold exceeds_step_limit. vm_compute. reflexivity. Qed.

(** The runaway deployment's first booking turn ends at the step ceiling and
    is answered with a 500 of kind INTERNAL_ERROR. *)
Lemma step_limit_is_internal_error_witness :
  0 <= MAX_RETRIES Script.runaway_env /\
  chat (mkChatRequest "book please" "t") Script.runaway_svc Script.host0 =
    (inl (mkHTTPException 500 "INTERNAL_ERROR" "Unexpected server error."),
     mkHost Script.runaway_end []).
Proof.
  assert (H : 0 <= MAX_RETRIES Script.runaway_env) by (simpl; lia).
  split; [exact H|].
  exact (proj2 (proj2 (step_limit_is_internal_error Script.runaway_env
                         "book please" "t" Script.host0 Script.runaway_end
                         H runaway_exceeds_step_limit))).
Defined.

(** C9 as stated fails: a turn that exceeds the step ceiling is surfaced
    with the kind INTERNAL_ERROR, not with a kind STEP_LIMIT_EXCEEDED. *)
Lemma step_limit_kind_is_not_dedicated :
  exceeds_step_limit Script.runaway_env "book please" "t"
    Script.sys0 Script.runaway_end /\
  exists e,
    fst (chat (mkChatRequest "book please" "t") Script.runaway_svc Script.host0)
      = inl e /\
    detail_error e = "INTERNAL_ERROR" /\
    detail_error e <> "STEP_LIMIT_EXCEEDED" /\
    kind (classify_exception (GraphRecursionError 20)) <> "STEP_LIMIT_EXCEEDED".
Proof.
  split; [exact runaway_exceeds_step_limit|].
  exists (mkHTTPException 500 "INTERNAL_ERROR" "Unexpected server error.").
  split; [vm_compute; reflexivity|]. split; [reflexivity|].
  split; [discriminate|]. vm_compute. discriminate.
Qed.

(** A booking turn whose generator keeps proposing the same call ends at the
    third proposal, after two tool rounds and below [MAX_TOOL_STEPS]. *)
Example repeated_call_ends_the_loop :
  node_log (app_world (snd (Script.turns Script.svc "t" ["book please"]
                              Script.host0))) =
    [N_router; N_booking_llm; N_tools; N_booking_llm; N_tools; N_booking_llm] /\
  booking_tool_steps
    (Script.thread_state
       (snd (Script.turns Script.svc "t" ["book please"] Script.host0)) "t")
    = Some 2.
Proof. vm_compute. split; reflexivity. Qed.

(** The limit at its edge: with a budget of nine tool rounds and a
    generator that proposes a new call every time, the booking turn takes
    twenty stages, the last of which ends the loop, and the runtime raises
    its recursion error all the same; with a budget of eight the turn
    takes eighteen stages and returns. *)
Example nine_rounds_reach_the_limit :
  let run max :=
    app_invoke (Script.env true max 1) (user_input "book please")
      (mkConfig "t" 20) Script.sys0 in
  fst (run 9) = inl (GraphRecursionError 20) /\
  length (node_log (snd (run 9))) = 20%nat /\
  last (node_log (snd (run 9))) = Some N_booking_llm /\
  booking_tool_steps (get (checkpoints (snd (run 9)) !! "t") empty_dict) = Some 9 /\
  is_Some (match fst (run 8) with inr final => Some final | inl _ => None end) /\
  length (node_log (snd (run 8))) = 18%nat.
Proof. vm_compute. repeat split; by eexists. Qed.

(** C2 as stated fails: on one thread, a first turn sets
    [handoff_required] and a second turn, routed to the handoff stage again,
    sets it back to false. *)
Lemma handoff_required_cleared :
  handoff_required
    (Script.thread_state
       (snd (Script.turns Script.svc "t" ["i want a human"] Script.host0)) "t")
    = Some true /\
  handoff_required
    (Script.thread_state
       (snd (Script.turns Script.svc "t" ["i want a human"; "no agent needed"]
               Script.host0)) "t")
    = Some false /\
  fst (Script.turns Script.svc "t" ["i want a human"; "no agent needed"]
         Script.host0)
    = Some (inr (mkResponse "How else can I help?" handoff [] false "")).
Proof. vm_compute. repeat split. Qed.

(** C3 as stated fails: after a knowledge turn and a booking turn that ran
    the tool executor twice, the third turn of the thread starts with
    [booking_tool_steps = 2], [repeat_tool_count = 2] and the citations of
    the first turn. *)
Lemma counters_carried_over :
  let h := snd (Script.turns Script.svc "t" ["opening hours?"; "book please"]
                  Script.host0) in
  let start := fst (begin_turn Script.default_env (user_input "hello") "t"
                      (app_world h)) in
  booking_tool_steps start = Some 2 /\
  repeat_tool_count start = Some 2 /\
  rag_meta_ids start = Some ["faq-1"%string] /\
  ~ (get (booking_tool_steps start) 0 = 0 /\
     get (repeat_tool_count start) 0 = 0 /\
     get (rag_meta_ids start) [] = []).
Proof.
  vm_compute. repeat split. intros (H & _). discriminate H.
Qed.

(** With twenty steps at hand the default deployment's booking loop stops by
    itself. *)
Lemma booking_loop_terminates_witness :
  (2 * Z.to_nat (MAX_TOOL_STEPS Script.default_env
                 - get (booking_tool_steps (Script.asked "book please")) 0%Z)
   + 2 <= 20)%nat /\
  fst (run_graph Script.default_env 20 "t" N_booking_llm
         (Script.asked "book please") Script.sys0) <> OutOfSteps.
Proof.
  assert (H : (2 * Z.to_nat (MAX_TOOL_STEPS Script.default_env
                 - get (booking_tool_steps (Script.asked "book please")) 0%Z)
               + 2 <= 20)%nat) by (simpl; lia).
  split; [exact H|].
  exact (proj2 (proj1 (booking_loop_terminates Script.default_env)
                  20%nat "t" (Script.asked "book please") Script.sys0) H).
Defined.

(** The scripted router answers "maybe" with route booking, confidence 0.25
    and a reply made of a blank and a no-break space: the stage asks the
    clarifying question. *)
Lemma router_low_confidence_witness :
  whitespace_only Script.blank_reply /\
  exists reply,
    router_node Script.default_env (Script.asked "maybe") 0%nat =
      (inr (mkState (Some [AI reply]) (Some general)
              None None None None None None), 0%nat) /\
    reply <> ""%string /\
    ~ whitespace_only reply /\
    reply = CLARIFY.
Proof.
  assert (Hw : whitespace_only Script.blank_reply).
  { apply StrFacts.blank_spec. vm_compute. reflexivity. }
  split; [exact Hw|].
  destruct (router_low_confidence Script.default_env (Script.asked "maybe")
              [mkMessage HumanMessage "maybe" [] [] (Some "uuid-0"%string)]
              (mkMessage HumanMessage "maybe" [] [] (Some "uuid-0"%string))
              (mkRouterDecision booking Script.blank_reply 0.25%float)
              0%nat 0%nat eq_refl eq_refl eq_refl eq_refl eq_refl
              ltac:(discriminate))
    as (reply & Hnode & Hne & Hnw & Hblank & _).
  exists reply. split; [exact Hnode|]. split; [exact Hne|].
  split; [exact Hnw|]. exact (Hblank Hw).
Defined.

(** On a thread that ends with an assistant message both stages return the
    state they were given. *)
Lemma router_and_handoff_skip_generated_witness :
  router_node Script.default_env Script.answered 0%nat
    = (inr Script.answered, 0%nat) /\
  handoff_node Script.default_env Script.answered 0%nat
    = (inr Script.answered, 0%nat) /\
  apply_update Script.default_env Script.answered Script.answered 0%nat
    = (Script.answered, 0%nat).
Proof.
  destruct (router_and_handoff_skip_generated Script.default_env
              Script.answered
              [mkMessage HumanMessage "hi" [] [] (Some "uuid-0"%string);
               mkMessage AIMessage "Hello!" [] [] (Some "uuid-1"%string)]
              (mkMessage AIMessage "Hello!" [] [] (Some "uuid-1"%string))
              0%nat eq_refl eq_refl eq_refl) as (Hr & Hh & Hu).
  split; [exact Hr|]. split; [exact Hh|]. apply Hu. split.
  - repeat constructor; by eexists.
  - apply (bool_decide_unpack _). vm_compute. exact I.
Defined.

(** The scripted generator proposes one call; the stage stores that call's
    signature. *)
Lemma booking_signature_first_call_witness :
  exists sig reps,
    booking_llm_node Script.default_env (Script.asked "book please") 0%nat =
      (inr (mkState (Some [mkMessage AIMessage "" [Script.check_call 0] [] None])
              None None None None None (Some sig) (Some reps)), 0%nat) /\
    sig = "check_slot_availability|0"%string /\ reps = 0.
Proof.
  destruct (booking_signature_first_call Script.default_env
              (Script.asked "book please")
              [mkMessage HumanMessage "book please" [] [] (Some "uuid-0"%string)]
              (mkMessage AIMessage "" [Script.check_call 0] [] None)
              0%nat 0%nat eq_refl eq_refl) as (sig & reps & Hnode & Hfirst & _).
  exists sig, reps. split; [exact Hnode|].
  destruct (Hfirst (Script.check_call 0) [] eq_refl eq_refl) as [-> ->].
  split; reflexivity.
Defined.

(* ================================================================= *)
(** * Further properties of the engine *)

(** ** The classifier's verdicts *)

(** X1. Whatever the exception, the classifier's answer is one of four fixed
    verdicts, it keeps the exception's text in [raw], and it marks the error
    retryable exactly when its status code is 429 or 503. *)
Theorem classify_exception_verdicts exc :
  let info := classify_exception exc in
  raw info = Some (exn_str exc) /\
  (retryable info = true <-> status_code info = 429 \/ status_code info = 503) /\
  In (kind info, status_code info, message info)
    [("MODEL_QUOTA_EXCEEDED", 429,
      "Model quota/rate limit exceeded. Please retry later.");
     ("TRANSIENT_UPSTREAM_ERROR", 503,
      "Upstream service temporarily unavailable. Please retry.");
     ("UPSTREAM_BAD_REQUEST", 400,
      "Upstream rejected the request (invalid input/config).");
     ("INTERNAL_ERROR", 500, "Unexpected server error.")]%string.
Proof.
  unfold classify_exception.
  repeat (match goal with
          | |- context [Str.contains ?a ?b] => destruct (Str.contains a b)
          end; simpl;
          try solve
            [ split; [reflexivity|];
              split; [split; [intros H; first [by left|by right|discriminate H]
                             |intros [H|H]; first [reflexivity|discriminate H]]
                     |tauto] ]).
Qed.

(** ** The [messages] channel *)
Section MessagesFacts.
Context {W : Type} (E : Env W).

Lemma assign_id_is_Some m w : is_Some (msg_id (fst (assign_id E m w))).
Proof.
  unfold assign_id. destruct (msg_id m) eqn:H.
  - simpl. by rewrite H.
  - destruct (uuid4 E w). simpl. by eexists.
Qed.

Lemma assign_ids_is_Some l w :
  Forall (fun m => is_Some (msg_id m)) (fst (assign_ids E l w)).
Proof.
  revert w. induction l as [|m l IH]; intros w; simpl; [constructor|].
  pose proof (assign_id_is_Some m w) as Hm.
  destruct (assign_id E m w) as [m' w1]. specialize (IH w1).
  destruct (assign_ids E l w1) as [l' w2]. simpl in *. by constructor.
Qed.

Lemma assign_ids_length l w : length (fst (assign_ids E l w)) = length l.
Proof.
  revert w. induction l as [|m l IH]; intros w; simpl; [done|].
  destruct (assign_id E m w) as [m' w1]. specialize (IH w1).
  destruct (assign_ids E l w1) as [l' w2]. simpl in *. by rewrite IH.
Qed.

Lemma index_by_id_lt id l i : index_by_id id l = Some i -> (i < length l)%nat.
Proof.
  revert i. induction l as [|m l IH]; intros i; simpl; [done|].
  destruct (index_by_id id l) as [j|].
  - intros [= <-]. specialize (IH j eq_refl). lia.
  - case_bool_decide; [|done]. intros [= <-]. lia.
Qed.

Lemma merge_one_length merged m :
  (length merged <= length (merge_one merged m))%nat.
Proof.
  unfold merge_one. destruct (index_by_id (msg_id m) merged).
  - by rewrite length_insert.
  - rewrite length_app. simpl. lia.
Qed.

Lemma merge_one_is_Some merged m :
  Forall (fun x => is_Some (msg_id x)) merged -> is_Some (msg_id m) ->
  Forall (fun x => is_Some (msg_id x)) (merge_one merged m).
Proof.
  intros Hl Hm. unfold merge_one. destruct (index_by_id (msg_id m) merged).
  - by apply Forall_insert.
  - apply Forall_app. split; [done|by constructor].
Qed.

Lemma fold_merge_length new_msgs : forall merged,
  (length merged <= length (fold_left merge_one new_msgs merged))%nat.
Proof.
  induction new_msgs as [|m r IH]; intros merged; simpl; [done|].
  etrans; [apply (merge_one_length merged m)|apply IH].
Qed.

Lemma fold_merge_is_Some new_msgs : forall merged,
  Forall (fun x => is_Some (msg_id x)) merged ->
  Forall (fun x => is_Some (msg_id x)) new_msgs ->
  Forall (fun x => is_Some (msg_id x)) (fold_left merge_one new_msgs merged).
Proof.
  induction new_msgs as [|m r IH]; intros merged Hl Hr; simpl; [done|].
  apply Forall_cons in Hr as [Hm Hr]. apply IH; [|done].
  by apply merge_one_is_Some.
Qed.

Lemma add_messages_length old_msgs new_msgs w :
  (length old_msgs <= length (fst (add_messages E old_msgs new_msgs w)))%nat.
Proof.
  unfold add_messages.
  pose proof (assign_ids_length old_msgs w) as Hlen.
  destruct (assign_ids E old_msgs w) as [old' w1].
  destruct (assign_ids E new_msgs w1) as [new' w2]. simpl in *.
  rewrite <- Hlen. apply fold_merge_length.
Qed.

Lemma add_messages_is_Some old_msgs new_msgs w :
  Forall (fun m => is_Some (msg_id m)) (fst (add_messages E old_msgs new_msgs w)).
Proof.
  unfold add_messages.
  pose proof (assign_ids_is_Some old_msgs w) as Hold.
  destruct (assign_ids E old_msgs w) as [old' w1].
  pose proof (assign_ids_is_Some new_msgs w1) as Hnew.
  destruct (assign_ids E new_msgs w1) as [new' w2]. simpl in *.
  by apply fold_merge_is_Some.
Qed.

(** The reducer never drops a message and leaves none without an id. *)
Lemma add_messages_keeps_and_identifies old_msgs new_msgs w :
  let merged := fst (add_messages E old_msgs new_msgs w) in
  (length old_msgs <= length merged)%nat /\
  Forall (fun m => is_Some (msg_id m)) merged.
Proof.
  split; [apply add_messages_length|apply add_messages_is_Some].
Qed.

Lemma apply_update_messages_length state upd w :
  (length (get (messages state) []) <=
   length (get (messages (fst (apply_update E state upd w))) []))%nat.
Proof.
  unfold apply_update. destruct (messages upd) as [r|]; simpl; [|done].
  pose proof (add_messages_length (get (messages state) []) r w) as Hlen.
  by destruct (add_messages E _ r w) as [l w'].
Qed.

End MessagesFacts.

(** ** Runs of the graph *)
Section RunFacts.
Context {W : Type} (E : Env W).

(** A relation between states that every stage execution respects holds
    between the state a run starts from and the state it returns, and between
    the thread's checkpoint before and after the run. *)
Lemma run_graph_rel (R : State -> State -> Prop) tid :
  (forall st, R st st) ->
  (forall a b c, R a b -> R b c -> R a c) ->
  (forall n st w upd w',
     exec_node E n st w = (inr upd, w') ->
     R st (fst (apply_update E st upd w'))) ->
  forall steps n state sys,
    let r := run_graph E steps tid n state sys in
    (forall final, fst r = Done final -> R state final) /\
    (forall st0, checkpoints sys !! tid = Some st0 -> R st0 state ->
       exists st1, checkpoints (snd r) !! tid = Some st1 /\ R st0 st1).
Proof.
  intros Hrefl Htrans Hstep.
  induction steps as [|steps IH]; intros n state sys.
  - simpl. split; [intros final [=]|]. intros st0 H0 HR. exists st0. auto.
  - rewrite run_graph_step. cbv zeta.
    destruct (exec_node E n state (world sys)) as [[exc|upd] w] eqn:Hex.
    { simpl. split; [intros final [=]|]. intros st0 H0 HR. exists st0. auto. }
    pose proof (Hstep _ _ _ _ _ Hex) as HR1.
    destruct (apply_update E state upd w) as [state' w']. simpl in HR1.
    destruct (next_node E n state' w') as [[exc|[n'|]] w''].
    + simpl. split; [intros final [=]|]. intros st0 H0 HR.
      exists state'. rewrite lookup_insert_eq. eauto.
    + specialize (IH n' state'
                    (mkSys w'' (<[tid:=state']> (checkpoints sys))
                       (node_log sys ++ [n]))).
      cbv zeta in IH. destruct IH as [IH1 IH2]. split.
      * intros final Hf. eauto.
      * intros st0 H0 HR.
        destruct (IH2 state') as (st1 & H1 & HR2);
          [apply lookup_insert_eq|apply Hrefl|].
        exists st1. split; [done|]. eauto.
    + simpl. split; [destruct steps; [intros final [=]|by intros final [= <-]]|].
      intros st0 H0 HR. exists state'. rewrite lookup_insert_eq. eauto.
Qed.

Lemma run_graph_other_threads tid t : t <> tid ->
  forall steps n state sys,
    checkpoints (snd (run_graph E steps tid n state sys)) !! t =
    checkpoints sys !! t.
Proof.
  intros Hne. induction steps as [|steps IH]; intros n state sys; [done|].
  rewrite run_graph_step. cbv zeta.
  destruct (exec_node E n state (world sys)) as [[exc|upd] w]; [done|].
  destruct (apply_update E state upd w) as [state' w'].
  destruct (next_node E n state' w') as [[exc|[n'|]] w'']; simpl.
  - by rewrite lookup_insert_ne.
  - rewrite IH. simpl. by rewrite lookup_insert_ne.
  - by rewrite lookup_insert_ne.
Qed.

Lemma run_graph_done_checkpoint tid :
  forall steps n state sys final,
    fst (run_graph E steps tid n state sys) = Done final ->
    checkpoints (snd (run_graph E steps tid n state sys)) !! tid = Some final.
Proof.
  induction steps as [|steps IH]; intros n state sys final; [done|].
  rewrite run_graph_step. cbv zeta.
  destruct (exec_node E n state (world sys)) as [[exc|upd] w]; [done|].
  destruct (apply_update E state upd w) as [state' w'].
  destruct (next_node E n state' w') as [[exc|[n'|]] w'']; simpl.
  - done.
  - apply IH.
  - destruct steps; [done|]. intros [= <-]. apply lookup_insert_eq.
Qed.

Lemma run_graph_log tid :
  forall steps n state sys,
    exists nodes,
      node_log (snd (run_graph E steps tid n state sys)) = node_log sys ++ nodes /\
      (length nodes <= steps)%nat /\
      (nodes = [] \/ head nodes = Some n).
Proof.
  induction steps as [|steps IH]; intros n state sys.
  - exists []. simpl. rewrite app_nil_r. auto.
  - rewrite run_graph_step. cbv zeta.
    destruct (exec_node E n state (world sys)) as [[exc|upd] w].
    { exists [n]. simpl. split; [done|]. split; [lia|auto]. }
    destruct (apply_update E state upd w) as [state' w'].
    destruct (next_node E n state' w') as [[exc|[n'|]] w'']; simpl.
    + exists [n]. simpl. split; [done|]. split; [lia|auto].
    + destruct (IH n' state'
                  (mkSys w'' (<[tid:=state']> (checkpoints sys))
                     (node_log sys ++ [n]))) as (nodes & Hlog & Hlen & _).
      exists (n :: nodes). simpl in *. rewrite Hlog, <- app_assoc.
      split; [done|]. split; [lia|auto].
    + exists [n]. simpl. split; [done|]. split; [lia|auto].
Qed.

Lemma begin_turn_other_threads input tid t sys :
  t <> tid ->
  checkpoints (snd (begin_turn E input tid sys)) !! t = checkpoints sys !! t.
Proof.
  intros Hne. unfold begin_turn.
  destruct (apply_update E _ input (world sys)) as [state1 w]. simpl.
  by rewrite lookup_insert_ne.
Qed.

Lemma begin_turn_log input tid sys :
  node_log (snd (begin_turn E input tid sys)) = node_log sys.
Proof.
  unfold begin_turn. by destruct (apply_update E _ input (world sys)).
Qed.

Lemma begin_turn_checkpoint input tid sys :
  checkpoints (snd (begin_turn E input tid sys)) !! tid =
  Some (fst (begin_turn E input tid sys)).
Proof.
  unfold begin_turn.
  destruct (apply_update E _ input (world sys)) as [state1 w]. simpl.
  apply lookup_insert_eq.
Qed.

Lemma begin_turn_apply input tid sys :
  fst (begin_turn E input tid sys) =
  fst (apply_update E (get (checkpoints sys !! tid) empty_dict) input (world sys)).
Proof. unfold begin_turn. by destruct (apply_update E _ input (world sys)). Qed.

(** How [app_invoke] reads off a run. *)
Lemma app_invoke_run input cfg sys :
  let start := begin_turn E input (thread_id cfg) sys in
  let r := run_graph E (recursion_limit cfg) (thread_id cfg) N_router
             (fst start) (snd start) in
  snd (app_invoke E input cfg sys) = snd r /\
  forall final, fst (app_invoke E input cfg sys) = inr final <-> fst r = Done final.
Proof.
  cbv zeta. unfold app_invoke.
  destruct (begin_turn E input (thread_id cfg) sys) as [state1 sys1].
  cbn [fst snd].
  destruct (run_graph E _ _ N_router state1 sys1) as [[f|exc|] sys']; simpl;
    (split; [done|]); intros final; split; intros [=]; by subst.
Qed.

(** X2. A turn on one thread leaves the checkpoint of every other thread as
    it was, whether the turn succeeds or raises. *)
Theorem turn_leaves_other_threads input cfg sys t :
  t <> thread_id cfg ->
  checkpoints (snd (app_invoke E input cfg sys)) !! t = checkpoints sys !! t.
Proof.
  intros Hne. destruct (app_invoke_run input cfg sys) as [-> _].
  rewrite run_graph_other_threads by done.
  by apply begin_turn_other_threads.
Qed.

(** X3. The state a successful turn returns is the state the checkpointer
    holds for the thread afterwards. *)
Theorem returned_state_is_checkpointed input cfg sys final :
  fst (app_invoke E input cfg sys) = inr final ->
  checkpoints (snd (app_invoke E input cfg sys)) !! thread_id cfg = Some final.
Proof.
  destruct (app_invoke_run input cfg sys) as [-> Hiff].
  intros H%Hiff. by apply run_graph_done_checkpoint.
Qed.

(** A turn runs at most [recursion_limit] stages, the router first; the
    log of stage entries grows at its end and loses nothing. *)
Lemma turn_runs_at_most_limit_stages input cfg sys :
  exists nodes,
    node_log (snd (app_invoke E input cfg sys)) = node_log sys ++ nodes /\
    (length nodes <= recursion_limit cfg)%nat /\
    (nodes = [] \/ head nodes = Some N_router).
Proof.
  destruct (app_invoke_run input cfg sys) as [-> _].
  destruct (run_graph_log (thread_id cfg) (recursion_limit cfg) N_router
              (fst (begin_turn E input (thread_id cfg) sys))
              (snd (begin_turn E input (thread_id cfg) sys)))
    as (nodes & Hlog & Hlen & Hhead).
  exists nodes. by rewrite Hlog, begin_turn_log.
Qed.

Lemma exec_node_steps_mono n state w upd w' :
  exec_node E n state w = (inr upd, w') ->
  get (booking_tool_steps state) 0 <=
  get (booking_tool_steps (fst (apply_update E state upd w'))) 0.
Proof.
  rewrite apply_update_booking_tool_steps. intros Hex.
  destruct n; simpl in Hex.
  - apply router_node_writes in Hex as [->|(_ & _ & _ & -> & _)];
      [by rewrite last_value_same|done].
  - apply rag_node_writes in Hex as (_ & _ & _ & -> & _). done.
  - apply booking_llm_node_writes in Hex as (_ & _ & _ & _ & -> & _). done.
  - apply tools_wrapper_writes in Hex as (_ & _ & _ & _ & _ & _ & ->).
    simpl. lia.
  - apply handoff_node_writes in Hex as [->|(_ & _ & -> & _)];
      [by rewrite last_value_same|done].
Qed.

(** X4. No turn shortens a thread's message history or lowers its
    [booking_tool_steps]: after [app_invoke], successful or not, the thread
    has a checkpoint with at least as many messages and at least as many
    counted tool steps as the checkpoint it had before, and so has the state
    a successful turn returns. *)
Theorem turn_never_shrinks_history text cfg sys :
  let before := get (checkpoints sys !! thread_id cfg) empty_dict in
  let r := app_invoke E (user_input text) cfg sys in
  (exists after,
     checkpoints (snd r) !! thread_id cfg = Some after /\
     (length (get (messages before) []) <= length (get (messages after) []))%nat /\
     get (booking_tool_steps before) 0 <= get (booking_tool_steps after) 0) /\
  (forall final, fst r = inr final ->
     (length (get (messages before) []) <= length (get (messages final) []))%nat /\
     get (booking_tool_steps before) 0 <= get (booking_tool_steps final) 0).
Proof.
  cbv zeta.
  set (R := fun a b : State =>
              (length (get (messages a) []) <= length (get (messages b) []))%nat /\
              get (booking_tool_steps a) 0 <= get (booking_tool_steps b) 0).
  assert (Hrefl : forall st, R st st) by (intros st; split; lia).
  assert (Htrans : forall a b c, R a b -> R b c -> R a c)
    by (intros a b c [? ?] [? ?]; split; lia).
  assert (Hstep : forall n st w upd w',
             exec_node E n st w = (inr upd, w') ->
             R st (fst (apply_update E st upd w'))).
  { intros n st w upd w' Hex. split.
    - apply apply_update_messages_length.
    - by eapply exec_node_steps_mono. }
  assert (Hstart : R (get (checkpoints sys !! thread_id cfg) empty_dict)
                     (fst (begin_turn E (user_input text) (thread_id cfg) sys))).
  { rewrite begin_turn_apply. split.
    - apply apply_update_messages_length.
    - by rewrite apply_update_booking_tool_steps. }
  destruct (app_invoke_run (user_input text) cfg sys) as [-> Hiff].
  destruct (run_graph_rel R (thread_id cfg) Hrefl Htrans Hstep
              (recursion_limit cfg) N_router
              (fst (begin_turn E (user_input text) (thread_id cfg) sys))
              (snd (begin_turn E (user_input text) (thread_id cfg) sys)))
    as [Hdone Hcp].
  split.
  - destruct (Hcp _ (begin_turn_checkpoint _ _ _) (Hrefl _)) as (st1 & H1 & HR).
    exists st1. split; [done|]. exact (Htrans _ _ _ Hstart HR).
  - intros final Hf%Hiff. exact (Htrans _ _ _ Hstart (Hdone _ Hf)).
Qed.

(** A node of the booking loop. *)
Definition loop_node (n : Node) : Prop := n = N_booking_llm \/ n = N_tools.

Lemma next_node_router_inv state w tgt w' :
  next_node E N_router state w = (inr tgt, w') ->
  w' = w /\
  match tgt with
  | END => route state = Some general
  | To n =>
      (n = N_rag /\ route state = Some kb) \/
      (n = N_booking_llm /\ route state = Some booking) \/
      (n = N_handoff /\ route state = Some handoff)
  end.
Proof.
  simpl. unfold route_after_router, ret, raise.
  destruct (route state) as [[]|]; intros [= <- <-]; auto.
Qed.

Lemma exec_node_route n state w upd w' :
  n <> N_router ->
  exec_node E n state w = (inr upd, w') ->
  route (fst (apply_update E state upd w')) = route state.
Proof.
  rewrite apply_update_route. intros Hn Hex. destruct n; simpl in Hex; try done.
  - apply rag_node_writes in Hex as (-> & _). done.
  - apply booking_llm_node_writes in Hex as (-> & _). done.
  - apply tools_wrapper_writes in Hex as (-> & _). done.
  - apply handoff_node_writes in Hex as [->|(-> & _)];
      [by rewrite last_value_same|done].
Qed.

Lemma exec_router_steps state w upd w' :
  router_node E state w = (inr upd, w') ->
  booking_tool_steps (fst (apply_update E state upd w')) =
  booking_tool_steps state.
Proof.
  rewrite apply_update_booking_tool_steps.
  intros [->|(_ & _ & _ & -> & _)]%router_node_writes;
    [by rewrite last_value_same|done].
Qed.

(** The knowledge stage and the handoff stage end the turn; the turn
    stops by itself when the stage was not the last step allowed. *)
Lemma run_graph_terminal steps tid n state sys :
  n = N_rag \/ n = N_handoff ->
  let r := run_graph E (S steps) tid n state sys in
  node_log (snd r) = node_log sys ++ [n] /\
  (steps <> 0%nat -> fst r <> OutOfSteps) /\
  (forall final, fst r = Done final -> route final = route state).
Proof.
  intros Hn. cbv zeta. rewrite run_graph_step. cbv zeta.
  destruct (exec_node E n state (world sys)) as [[exc|upd] w] eqn:Hex.
  { simpl. repeat split; try done. }
  assert (Hroute : route (fst (apply_update E state upd w)) = route state).
  { eapply exec_node_route; [|done]. by destruct Hn as [-> | ->]. }
  destruct (apply_update E state upd w) as [state' w']. simpl in Hroute.
  assert (Hnext : next_node E n state' w' = (inr END, w'))
    by (by destruct Hn as [-> | ->]).
  rewrite Hnext. simpl. split; [done|].
  destruct steps; [by split|]. split; [done|]. by intros final [= <-].
Qed.

(** The booking loop keeps the route and runs its two nodes only; when it
    ends the turn, the generator ran last. *)
Lemma run_graph_loop_shape tid :
  forall steps n state sys,
    loop_node n ->
    let r := run_graph E steps tid n state sys in
    exists nodes,
      node_log (snd r) = node_log sys ++ nodes /\
      Forall loop_node nodes /\
      (forall final, fst r = Done final ->
         route final = route state /\ last nodes = Some N_booking_llm).
Proof.
  induction steps as [|steps IH]; intros n state sys Hn.
  - exists []. simpl. rewrite app_nil_r. repeat split; try done.
  - cbv zeta. rewrite run_graph_step. cbv zeta.
    destruct (exec_node E n state (world sys)) as [[exc|upd] w] eqn:Hex.
    { exists [n]. simpl. repeat split; try done. by constructor. }
    assert (Hroute : route (fst (apply_update E state upd w)) = route state).
    { eapply exec_node_route; [|done]. by destruct Hn as [-> | ->]. }
    destruct (apply_update E state upd w) as [state' w']. simpl in Hroute.
    destruct (next_node E n state' w') as [[exc|[n'|]] w''] eqn:Hnext.
    + exists [n]. simpl. repeat split; try done. by constructor.
    + assert (Hn' : loop_node n').
      { destruct Hn as [-> | ->].
        - apply next_node_booking_continue in Hnext as (-> & _). by right.
        - injection Hnext as <- <-. by left. }
      destruct (IH n' state'
                  (mkSys w'' (<[tid:=state']> (checkpoints sys))
                     (node_log sys ++ [n]))
                  Hn') as (nodes & Hlog & Hall & Hdone).
      exists (n :: nodes). simpl in *. rewrite Hlog, <- app_assoc.
      split; [done|]. split; [by constructor|].
      intros final Hf. destruct (Hdone final Hf) as [Hr Hlast].
      split; [congruence|]. destruct nodes; [done|]. done.
    + exists [n]. simpl. split; [done|]. split; [by constructor|].
      destruct steps; [by intros final [=]|].
      intros final [= <-]. split; [done|].
      destruct Hn as [-> | ->]; [done|]. by injection Hnext.
Qed.

(** X5. A turn that succeeds ran the router and then what its route says:
    nothing more for general, the knowledge stage alone for kb, the handoff
    stage alone for handoff, and for booking only the two stages of the
    booking loop, the generator last. The returned state always has a
    route. *)
Theorem successful_turn_follows_route input cfg sys final :
  fst (app_invoke E input cfg sys) = inr final ->
  exists nodes,
    node_log (snd (app_invoke E input cfg sys)) =
      node_log sys ++ N_router :: nodes /\
    match route final with
    | Some general => nodes = []
    | Some kb => nodes = [N_rag]
    | Some handoff => nodes = [N_handoff]
    | Some booking => Forall loop_node nodes /\ last nodes = Some N_booking_llm
    | None => False
    end.
Proof.
  destruct (app_invoke_run input cfg sys) as [-> Hiff]. intros Hf%Hiff.
  revert Hf. rewrite <- (begin_turn_log input (thread_id cfg) sys).
  generalize (fst (begin_turn E input (thread_id cfg) sys)).
  generalize (snd (begin_turn E input (thread_id cfg) sys)).
  intros sys1 state1. destruct (recursion_limit cfg) as [|steps]; [done|].
  rewrite run_graph_step. cbv zeta.
  destruct (exec_node E N_router state1 (world sys1)) as [[exc|upd] w]; [done|].
  destruct (apply_update E state1 upd w) as [state' w'].
  destruct (next_node E N_router state' w') as [[exc|[n'|]] w''] eqn:Hnext;
    [done| |].
  - apply next_node_router_inv in Hnext
      as (-> & [(-> & Hr)|[(-> & Hr)|(-> & Hr)]]).
    + destruct steps as [|steps]; [done|].
      destruct (run_graph_terminal steps (thread_id cfg) N_rag state'
                  (mkSys w' (<[thread_id cfg:=state']> (checkpoints sys1))
                     (node_log sys1 ++ [N_router]))
                  (or_introl eq_refl)) as (Hlog & _ & Hdone).
      intros Hf. exists [N_rag]. rewrite Hlog. simpl. rewrite <- app_assoc.
      split; [done|]. by rewrite (Hdone _ Hf), Hr.
    + destruct (run_graph_loop_shape (thread_id cfg) steps N_booking_llm state'
                  (mkSys w' (<[thread_id cfg:=state']> (checkpoints sys1))
                     (node_log sys1 ++ [N_router]))
                  (or_introl eq_refl)) as (nodes & Hlog & Hall & Hdone).
      intros Hf. exists nodes. rewrite Hlog. simpl. rewrite <- app_assoc.
      split; [done|]. destruct (Hdone _ Hf) as [-> Hlast]. by rewrite Hr.
    + destruct steps as [|steps]; [done|].
      destruct (run_graph_terminal steps (thread_id cfg) N_handoff state'
                  (mkSys w' (<[thread_id cfg:=state']> (checkpoints sys1))
                     (node_log sys1 ++ [N_router]))
                  (or_intror eq_refl)) as (Hlog & _ & Hdone).
      intros Hf. exists [N_handoff]. rewrite Hlog. simpl. rewrite <- app_assoc.
      split; [done|]. by rewrite (Hdone _ Hf), Hr.
  - apply next_node_router_inv in Hnext as (-> & Hr). simpl.
    destruct steps; [done|]. intros [= <-]. exists []. by rewrite Hr.
Qed.

(** From the router a run adds at most [budget] tool rounds and ends by
    itself when it is left [2 * budget + 3] steps, one more than the
    stages it can take. *)
Lemma run_graph_router_bound steps tid state sys :
  let r := run_graph E steps tid N_router state sys in
  (tool_rounds (node_log (snd r)) <=
     tool_rounds (node_log sys) + budget E state)%nat /\
  ((2 * budget E state + 3 <= steps)%nat -> fst r <> OutOfSteps).
Proof.
  cbv zeta. destruct steps as [|steps]; [simpl; split; lia|].
  rewrite run_graph_step. cbv zeta. change (exec_node E N_router) with (router_node E).
  destruct (router_node E state (world sys)) as [[exc|upd] w] eqn:Hex.
  { cbn [fst snd node_log]. rewrite tool_rounds_snoc. simpl. split; [lia|done]. }
  pose proof (exec_router_steps _ _ _ _ Hex) as Hsame.
  destruct (apply_update E state upd w) as [state' w']. simpl in Hsame.
  destruct (next_node E N_router state' w') as [[exc|[n'|]] w''] eqn:Hnext.
  { cbn [fst snd node_log]. rewrite tool_rounds_snoc. simpl. split; [lia|done]. }
  2:{ cbn [fst snd node_log]. rewrite tool_rounds_snoc. simpl. split; [lia|].
      destruct steps; [lia|done]. }
  apply next_node_router_inv in Hnext as (-> & [(-> & _)|[(-> & _)|(-> & _)]]).
  - destruct steps as [|steps].
    { simpl. rewrite tool_rounds_snoc. simpl. split; lia. }
    destruct (run_graph_terminal steps tid N_rag state'
                (mkSys w' (<[tid:=state']> (checkpoints sys))
                   (node_log sys ++ [N_router]))
                (or_introl eq_refl)) as (Hlog & Hout & _).
    rewrite Hlog. simpl. rewrite !tool_rounds_snoc. simpl. split; [lia|].
    intros Hs. apply Hout. lia.
  - destruct (run_graph_loop E steps tid N_booking_llm state'
                (mkSys w' (<[tid:=state']> (checkpoints sys))
                   (node_log sys ++ [N_router]))
                (or_introl eq_refl)) as [Hrounds Hout].
    cbn [node_log] in Hrounds. rewrite tool_rounds_snoc in Hrounds.
    unfold steps_needed, rounds_left, budget in *. rewrite Hsame in *.
    simpl in Hrounds. split; [lia|]. intros Hs. apply Hout. lia.
  - destruct steps as [|steps].
    { simpl. rewrite tool_rounds_snoc. simpl. split; lia. }
    destruct (run_graph_terminal steps tid N_handoff state'
                (mkSys w' (<[tid:=state']> (checkpoints sys))
                   (node_log sys ++ [N_router]))
                (or_intror eq_refl)) as (Hlog & Hout & _).
    rewrite Hlog. simpl. rewrite !tool_rounds_snoc. simpl. split; [lia|].
    intros Hs. apply Hout. lia.
Qed.

(** X6. On a thread whose [booking_tool_steps] has reached
    [MAX_TOOL_STEPS] a turn runs the tool executor no more, whatever the
    generator proposes. *)
Theorem exhausted_thread_runs_no_tool text cfg sys :
  MAX_TOOL_STEPS E <=
    get (booking_tool_steps (get (checkpoints sys !! thread_id cfg) empty_dict)) 0 ->
  tool_rounds (node_log (snd (app_invoke E (user_input text) cfg sys))) =
  tool_rounds (node_log sys).
Proof.
  intros Hmax. destruct (app_invoke_run (user_input text) cfg sys) as [-> _].
  pose proof (run_graph_router_bound (recursion_limit cfg) (thread_id cfg)
                (fst (begin_turn E (user_input text) (thread_id cfg) sys))
                (snd (begin_turn E (user_input text) (thread_id cfg) sys)))
    as [Hrounds _].
  destruct (run_graph_log (thread_id cfg) (recursion_limit cfg) N_router
              (fst (begin_turn E (user_input text) (thread_id cfg) sys))
              (snd (begin_turn E (user_input text) (thread_id cfg) sys)))
    as (nodes & Hlog & _).
  rewrite begin_turn_log in Hrounds, Hlog.
  assert (Hb : budget E (fst (begin_turn E (user_input text) (thread_id cfg) sys))
               = 0%nat).
  { unfold budget. rewrite begin_turn_apply, apply_update_booking_tool_steps.
    simpl. lia. }
  rewrite Hb in Hrounds. rewrite Hlog in *. unfold tool_rounds in *.
  rewrite filter_app, length_app in *. lia.
Qed.

(** With a tool budget of at most eight rounds and a counter that is not
    negative, a turn takes at most eighteen stages and the twenty steps of
    the recursion limit always suffice: a turn never ends at the step
    ceiling. *)
Lemma default_limit_is_never_reached text tid sys sys' :
  MAX_TOOL_STEPS E <= 8 ->
  0 <= get (booking_tool_steps (get (checkpoints sys !! tid) empty_dict)) 0 ->
  ~ exceeds_step_limit E text tid sys sys'.
Proof.
  intros Hmax Hpos Hrun. unfold exceeds_step_limit in Hrun.
  pose proof (run_graph_router_bound 20 tid
                (fst (begin_turn E (user_input text) tid sys))
                (snd (begin_turn E (user_input text) tid sys))) as [_ Hout].
  apply Hout; [|by rewrite Hrun].
  unfold budget. rewrite begin_turn_apply, apply_update_booking_tool_steps.
  simpl. lia.
Qed.

End RunFacts.

(** ** How many stages a turn takes *)
Section StageCount.
Context {W : Type} (E : Env W).

Lemma run_graph_loop_count tid :
  forall steps n state sys,
    loop_node n ->
    exists nodes,
      node_log (snd (run_graph E steps tid n state sys)) = node_log sys ++ nodes /\
      (length nodes <= steps_needed E n state)%nat.
Proof.
  induction steps as [|steps IH]; intros n state sys Hn.
  - exists []. simpl. rewrite app_nil_r. split; [done|]. lia.
  - rewrite run_graph_step. cbv zeta.
    assert (H1 : (1 <= steps_needed E n state)%nat)
      by (destruct Hn as [-> | ->]; simpl; lia).
    destruct (exec_node E n state (world sys)) as [[exc|upd] w] eqn:Hex.
    { exists [n]. simpl. split; [done|lia]. }
    assert (Hsteps : get (booking_tool_steps (fst (apply_update E state upd w))) 0 =
                     get (booking_tool_steps state) 0 +
                     (if Node_eqb n N_tools then 1 else 0)).
    { destruct Hn as [-> | ->]; simpl in Hex |- *.
      - rewrite (booking_llm_then_steps E _ _ _ _ w Hex). lia.
      - exact (tools_then_steps E _ _ _ _ w Hex). }
    destruct (apply_update E state upd w) as [state' w']. simpl in Hsteps.
    destruct (next_node E n state' w') as [[exc|[n'|]] w''] eqn:Hnext.
    + exists [n]. simpl. split; [done|lia].
    + destruct Hn as [-> | ->].
      * apply next_node_booking_continue in Hnext as (-> & -> & Hlt & _).
        destruct (IH N_tools state'
                    (mkSys w' (<[tid:=state']> (checkpoints sys))
                       (node_log sys ++ [N_booking_llm]))
                    (or_intror eq_refl)) as (nodes & Hlog & Hlen).
        exists (N_booking_llm :: nodes). simpl in *. rewrite Hlog, <- app_assoc.
        split; [done|]. unfold budget in *. rewrite Hsteps in *. lia.
      * injection Hnext as <- <-.
        destruct (IH N_booking_llm state'
                    (mkSys w' (<[tid:=state']> (checkpoints sys))
                       (node_log sys ++ [N_tools]))
                    (or_introl eq_refl)) as (nodes & Hlog & Hlen).
        exists (N_tools :: nodes). simpl in *. rewrite Hlog, <- app_assoc.
        split; [done|]. unfold budget in *. rewrite Hsteps in *. lia.
    + exists [n]. simpl. split; [done|lia].
Qed.

Lemma run_graph_router_count steps tid state sys :
  exists nodes,
    node_log (snd (run_graph E steps tid N_router state sys)) =
      node_log sys ++ nodes /\
    (length nodes <= 2 * budget E state + 2)%nat /\
    (nodes = [] \/ head nodes = Some N_router).
Proof.
  destruct steps as [|steps].
  { exists []. simpl. rewrite app_nil_r. split; [done|]. split; [lia|auto]. }
  rewrite run_graph_step. cbv zeta. change (exec_node E N_router) with (router_node E).
  destruct (router_node E state (world sys)) as [[exc|upd] w] eqn:Hex.
  { exists [N_router]. simpl. split; [done|]. split; [lia|auto]. }
  pose proof (exec_router_steps E _ _ _ _ Hex) as Hsame.
  destruct (apply_update E state upd w) as [state' w']. simpl in Hsame.
  destruct (next_node E N_router state' w') as [[exc|[n'|]] w''] eqn:Hnext.
  { exists [N_router]. simpl. split; [done|]. split; [lia|auto]. }
  2:{ exists [N_router]. simpl. split; [done|]. split; [lia|auto]. }
  apply next_node_router_inv in Hnext as (-> & [(-> & _)|[(-> & _)|(-> & _)]]).
  - destruct (run_graph_log E tid steps N_rag state'
                (mkSys w' (<[tid:=state']> (checkpoints sys))
                   (node_log sys ++ [N_router]))) as (nodes & Hlog & Hlen & _).
    destruct steps as [|steps].
    + exists [N_router]. simpl. split; [done|]. split; [lia|auto].
    + destruct (run_graph_terminal E steps tid N_rag state'
                  (mkSys w' (<[tid:=state']> (checkpoints sys))
                     (node_log sys ++ [N_router]))
                  (or_introl eq_refl)) as (Hlog' & _).
      exists [N_router; N_rag]. rewrite Hlog'. simpl. rewrite <- app_assoc.
      split; [done|]. split; [lia|auto].
  - destruct (run_graph_loop_count tid steps N_booking_llm state'
                (mkSys w' (<[tid:=state']> (checkpoints sys))
                   (node_log sys ++ [N_router]))
                (or_introl eq_refl)) as (nodes & Hlog & Hlen).
    exists (N_router :: nodes). rewrite Hlog. simpl in *. rewrite <- app_assoc.
    split; [done|]. unfold budget in *. rewrite Hsame in *. split; [lia|auto].
  - destruct steps as [|steps].
    + exists [N_router]. simpl. split; [done|]. split; [lia|auto].
    + destruct (run_graph_terminal E steps tid N_handoff state'
                  (mkSys w' (<[tid:=state']> (checkpoints sys))
                     (node_log sys ++ [N_router]))
                  (or_intror eq_refl)) as (Hlog' & _).
      exists [N_router; N_handoff]. rewrite Hlog'. simpl. rewrite <- app_assoc.
      split; [done|]. split; [lia|auto].
Qed.

(** X7. A turn on a thread whose counter stands at [s] executes at most
    [2 * (MAX_TOOL_STEPS - s) + 2] stages, the router first, whatever the
    collaborators do; a run that is allowed more steps than that ends by
    itself and not at the step ceiling. *)
Theorem turn_needs_few_stages text tid sys steps :
  let s := get (booking_tool_steps (get (checkpoints sys !! tid) empty_dict)) 0 in
  let need := (2 * Z.to_nat (MAX_TOOL_STEPS E - s) + 2)%nat in
  let start := begin_turn E (user_input text) tid sys in
  let r := run_graph E steps tid N_router (fst start) (snd start) in
  (exists nodes,
     node_log (snd r) = node_log sys ++ nodes /\
     (length nodes <= need)%nat /\ (length nodes <= steps)%nat /\
     (nodes = [] \/ head nodes = Some N_router)) /\
  ((need < steps)%nat -> fst r <> OutOfSteps).
Proof.
  cbv zeta.
  assert (Hb : budget E (fst (begin_turn E (user_input text) tid sys)) =
               Z.to_nat (MAX_TOOL_STEPS E -
                 get (booking_tool_steps (get (checkpoints sys !! tid) empty_dict)) 0)).
  { unfold budget. by rewrite begin_turn_apply, apply_update_booking_tool_steps. }
  split.
  - destruct (run_graph_router_count steps tid
                (fst (begin_turn E (user_input text) tid sys))
                (snd (begin_turn E (user_input text) tid sys)))
      as (nodes & Hlog & Hlen & Hhead).
    destruct (run_graph_log E tid steps N_router
                (fst (begin_turn E (user_input text) tid sys))
                (snd (begin_turn E (user_input text) tid sys)))
      as (nodes' & Hlog' & Hlen' & _).
    rewrite Hlog in Hlog'. apply app_inv_head in Hlog'. subst nodes'.
    exists nodes. rewrite Hlog, begin_turn_log, <- Hb. auto.
  - rewrite <- Hb. intros Hs.
    apply (run_graph_router_bound E steps tid
             (fst (begin_turn E (user_input text) tid sys))
             (snd (begin_turn E (user_input text) tid sys))).
    lia.
Qed.

End StageCount.

(** ** What the stages write *)

(** The response field [handoff_reason] is empty unless [handoff_required]. *)
Definition reason_consistent (state : State) : Prop :=
  get (handoff_required state) false = false ->
  get (handoff_reason state) ""%string = ""%string.

Section StageWrites.
Context {W : Type} (E : Env W).

(** X8. On a user-authored latest message the router stage consults the
    generator once and writes the route alone, plus one assistant message
    exactly when the resolved route is general. A decision that is confident
    or already general is taken as it is; an exception of the generator is
    raised unchanged. *)
Theorem router_writes_route state msgs m w :
  messages state = Some msgs ->
  last msgs = Some m ->
  is_human m = true ->
  match router_llm E (System (ROUTER_PROMPT E) :: msgs) w with
  | (inl exc, w') => router_node E state w = (inl exc, w')
  | (inr decision, w') =>
      exists resolved reply,
        router_node E state w =
          (inr (mkState (if Route_eqb resolved general then Some [AI reply] else None)
                  (Some resolved) None None None None None None), w') /\
        ((rd_confidence decision <? confidence_threshold)%float = false \/
         rd_route decision = general ->
         resolved = rd_route decision /\ reply = rd_reply decision)
  end.
Proof.
  intros Hm Hl Hh. unfold router_node. read_messages Hm Hl. rewrite Hh. simpl.
  destruct (router_llm E _ w) as [[exc|decision] w']; [done|].
  destruct ((rd_confidence decision <? confidence_threshold)%float
            && negb (Route_eqb (rd_route decision) general)) eqn:Hlow; simpl.
  - eexists general, _. split; [reflexivity|].
    apply andb_true_iff in Hlow as [Hc Hr]. intros [H|H]; [congruence|].
    rewrite H in Hr. done.
  - exists (rd_route decision), (rd_reply decision). split; [|done].
    by destruct (Route_eqb (rd_route decision) general).
Qed.

(** X9. The knowledge stage retrieves before it generates: when the
    retriever raises, the stage raises the same exception and the generator
    is not consulted. When both succeed, the stage appends one assistant
    message with the generator's answer; the citations it writes are the
    non-empty ids of the answer's meta entries, in their order, and the
    message carries the same list. *)
Theorem rag_node_cites_nonempty_ids state msgs m w :
  messages state = Some msgs ->
  last msgs = Some m ->
  match retriever E (content m) w with
  | (inl exc, w1) => rag_node E state w = (inl exc, w1)
  | (inr docs, w1) =>
      forall response w2,
        rag_llm_tools E
          (System (RAG_PROMPT E) :: msgs ++
           [System ("KB_CONTEXT:" ++ nl ++
                    String.concat (nl ++ nl) (map page_content docs))%string]) w1
          = (inr response, w2) ->
        exists ids,
          rag_node E state w =
            (inr (mkState
                    (Some [mkMessage AIMessage (answer response) [] ids None])
                    None (Some ids) None None None None None), w2) /\
          ids = List.filter Str.truthy (map mc_id (meta response)) /\
          Forall (fun i => i <> ""%string) ids /\
          (forall i, In i ids -> exists c, In c (meta response) /\ mc_id c = i)
  end.
Proof.
  intros Hm Hl. unfold rag_node. read_messages Hm Hl.
  destruct (retriever E (content m) w) as [[exc|docs] w1]; [done|].
  intros response w2 Hllm. rewrite Hllm.
  set (ids := filter (fun i => Str.truthy i = true) (map mc_id (meta response))).
  exists ids. split; [done|].
  assert (Hids : ids = List.filter Str.truthy (map mc_id (meta response))).
  { subst ids. induction (map mc_id (meta response)) as [|i l IH]; [done|].
    rewrite filter_cons. simpl. rewrite <- IH.
    destruct (Str.truthy i) eqn:Hi; by case_decide. }
  split; [done|]. rewrite Hids. split.
  - apply List.Forall_forall. intros i [_ Hi]%filter_In. by destruct i.
  - intros i [Hin _]%filter_In. apply in_map_iff in Hin as (c & Hc & Hin).
    eauto.
Qed.

(** On a user-authored latest message the handoff stage appends one
    assistant message with the decision's reply and writes the decision's
    flag; the reason it writes is the decision's reason when the flag is set
    and the empty text otherwise. *)
Lemma handoff_node_clears_reason state msgs m decision w w' :
  messages state = Some msgs ->
  last msgs = Some m ->
  is_human m = true ->
  handoff_llm E
    (System (if Str.truthy (HANDOFF_PROMPT E) then HANDOFF_PROMPT E
             else ROUTER_PROMPT E) :: msgs) w = (inr decision, w') ->
  exists reason,
    handoff_node E state w =
      (inr (mkState (Some [AI (hd_reply decision)]) None None
              (Some (hd_handoff_required decision)) (Some reason)
              None None None), w') /\
    (hd_handoff_required decision = true -> reason = hd_reason decision) /\
    (hd_handoff_required decision = false -> reason = ""%string).
Proof.
  intros Hm Hl Hh Hllm. unfold handoff_node. read_messages Hm Hl.
  rewrite Hh. simpl. rewrite Hllm. eexists. split; [reflexivity|].
  by destruct (hd_handoff_required decision).
Qed.

Lemma apply_update_handoff_reason state upd w :
  handoff_reason (fst (apply_update E state upd w)) =
  last_value (handoff_reason state) (handoff_reason upd).
Proof. destruct (apply_update_shape E state upd w) as [x ->]. done. Qed.

Lemma handoff_node_pair state w upd w' :
  handoff_node E state w = (inr upd, w') ->
  upd = state \/
  exists flag reason,
    handoff_required upd = Some flag /\ handoff_reason upd = Some reason /\
    (flag = false -> reason = ""%string).
Proof.
  unfold handoff_node. open_messages state.
  destruct (is_human m); simpl; [|intros [= <- <-]; by left].
  destruct (handoff_llm E _ w) as [[exc|d] w1]; [done|].
  intros [= <- <-]. right. eexists _, _. simpl. split; [done|]. split; [done|].
  by intros ->.
Qed.

Lemma exec_node_reason_consistent n state w upd w' :
  exec_node E n state w = (inr upd, w') ->
  reason_consistent state ->
  reason_consistent (fst (apply_update E state upd w')).
Proof.
  unfold reason_consistent.
  rewrite apply_update_handoff_required, apply_update_handoff_reason.
  intros Hex Hst. destruct n; simpl in Hex.
  - apply router_node_writes in Hex as [->|(_ & -> & -> & _)];
      [by rewrite !last_value_same|done].
  - apply rag_node_writes in Hex as (_ & -> & -> & _). done.
  - apply booking_llm_node_writes in Hex as (_ & _ & -> & -> & _). done.
  - apply tools_wrapper_writes in Hex as (_ & _ & -> & -> & _). done.
  - apply handoff_node_pair in Hex as [->|(flag & reason & -> & -> & Hfr)];
      [by rewrite !last_value_same|].
    simpl. intros ->. by rewrite Hfr.
Qed.

(** X10. If the thread's checkpoint has an empty [handoff_reason] whenever
    its [handoff_required] is unset or false, the state a successful turn
    returns has too, and so the normalized response carries a reason only
    together with [handoff_required = true]. A new thread satisfies the
    condition. *)
Theorem response_reason_needs_flag text cfg sys final :
  reason_consistent (get (checkpoints sys !! thread_id cfg) empty_dict) ->
  fst (app_invoke E (user_input text) cfg sys) = inr final ->
  reason_consistent final /\
  (r_handoff_required (normalize final) = false ->
   r_handoff_reason (normalize final) = ""%string).
Proof.
  intros Hold Hf.
  destruct (app_invoke_run E (user_input text) cfg sys) as [_ Hiff].
  apply Hiff in Hf.
  assert (Hstart : reason_consistent
                     (fst (begin_turn E (user_input text) (thread_id cfg) sys))).
  { rewrite begin_turn_apply. unfold reason_consistent in *.
    by rewrite apply_update_handoff_required, apply_update_handoff_reason. }
  destruct (run_graph_rel E
              (fun a b => reason_consistent a -> reason_consistent b)
              (thread_id cfg)
              (fun st H => H)
              (fun a b c Hab Hbc H => Hbc (Hab H))
              (fun n st w upd w' Hex => exec_node_reason_consistent n st w upd w' Hex)
              (recursion_limit cfg) N_router
              (fst (begin_turn E (user_input text) (thread_id cfg) sys))
              (snd (begin_turn E (user_input text) (thread_id cfg) sys)))
    as [Hdone _].
  pose proof (Hdone final Hf Hstart) as Hfinal. split; [done|].
  exact Hfinal.
Qed.

Lemma index_by_id_elem id l i : index_by_id id l = Some i -> id ∈ map msg_id l.
Proof.
  revert i. induction l as [|x l IH]; intros i; simpl; [done|].
  destruct (index_by_id id l) as [j|].
  - intros _. right. by eapply IH.
  - case_bool_decide as Hx; [|done]. intros _. rewrite Hx. left.
Qed.

(** X11. When every message of the thread has an id and the id drawn for the
    new message is not among them, the turn starts from the thread's history
    with the user message appended at its end: nothing is replaced, and the
    router finds a user-authored latest message. *)
Theorem begin_turn_appends_user_message text tid sys history u w' :
  messages (get (checkpoints sys !! tid) empty_dict) = Some history \/
  (messages (get (checkpoints sys !! tid) empty_dict) = None /\ history = []) ->
  Forall (fun m => is_Some (msg_id m)) history ->
  uuid4 E (world sys) = (u, w') ->
  Some u ∉ map msg_id history ->
  messages (fst (begin_turn E (user_input text) tid sys)) =
    Some (history ++ [mkMessage HumanMessage text [] [] (Some u)]) /\
  world (snd (begin_turn E (user_input text) tid sys)) = w'.
Proof.
  intros Hhist Hids Hu Hfresh. unfold begin_turn, apply_update. simpl.
  assert (Hget : get (messages (get (checkpoints sys !! tid) empty_dict)) []
                 = history).
  { destruct Hhist as [->|[-> ->]]; done. }
  rewrite Hget. unfold add_messages.
  rewrite (assign_ids_present E history (world sys) Hids). simpl.
  unfold assign_id. simpl. rewrite Hu. simpl. unfold merge_one. simpl.
  destruct (index_by_id (Some u) history) as [i|] eqn:Hi.
  - apply index_by_id_elem in Hi. done.
  - done.
Qed.

End StageWrites.

(** The first turn of a new thread under the scripted collaborators. *)
Lemma begin_turn_appends_user_message_witness :
  messages (fst (begin_turn Script.default_env (user_input "hello") "t" Script.sys0)) =
    Some [mkMessage HumanMessage "hello" [] [] (Some "uuid-0"%string)] /\
  world (snd (begin_turn Script.default_env (user_input "hello") "t" Script.sys0))
    = 1%nat.
Proof.
  apply (begin_turn_appends_user_message Script.default_env "hello" "t"
           Script.sys0 [] "uuid-0" 1%nat).
  - right. split; reflexivity.
  - constructor.
  - reflexivity.
  - simpl. apply not_elem_of_nil.
Defined.

(** ** The service and the route *)

(** [get_graph_service]: the module keeps one [GraphService]; [construct] is
    [GraphService()], which builds the app and may raise. The process state
    is the world together with [_GRAPH_SERVICE_SINGLETON]. *)
Definition get_graph_service {W X} (construct : M W (GraphService X))
    : M (W * option (GraphService X)) (GraphService X) :=
  fun p =>
    match snd p with
    | Some svc => (inr svc, p)
    | None =>
        match construct (fst p) with
        | (inr svc, w') => (inr svc, (w', Some svc))
        | (inl exc, w') => (inl exc, (w', None))
        end
    end.

(** X12. With a negative retry bound [invoke] never runs the app: the loop
    has no iteration, its [else] branch raises with no exception at hand,
    which is a [TypeError], and the process is left as it was. *)
Theorem invoke_negative_retries {X} (self : GraphService X) message thread h :
  _max_retries self < 0 ->
  invoke self message thread h = (inl TypeError, h).
Proof.
  intros Hneg. unfold invoke, bind, range.
  replace (Z.to_nat (_max_retries self + 1)) with 0%nat by lia. done.
Qed.

(** X13. The route answers with the service's response when [invoke]
    returns, and with an HTTP error when [invoke] raises: the error carries
    the classifier's kind and message for the raised exception, and its
    status is 429, 503, 400 or 500 according to that kind. The process is
    left as [invoke] left it. *)
Theorem chat_surfaces_classified_error {X} (svc : GraphService X) req h :
  snd (chat req svc h) = snd (invoke svc (req_message req) (req_thread_id req) h) /\
  match fst (invoke svc (req_message req) (req_thread_id req) h) with
  | inr out => fst (chat req svc h) = inr out
  | inl exc =>
      exists err,
        fst (chat req svc h) = inl err /\
        detail_error err = kind (classify_exception exc) /\
        detail_message err = message (classify_exception exc) /\
        In (http_status_code err, detail_error err)
          [(429, "MODEL_QUOTA_EXCEEDED"); (503, "TRANSIENT_UPSTREAM_ERROR");
           (400, "UPSTREAM_BAD_REQUEST"); (500, "INTERNAL_ERROR")]%string
  end.
Proof.
  unfold chat.
  destruct (invoke svc (req_message req) (req_thread_id req) h)
    as [[exc|out] h']; simpl; (split; [done|]); [|done].
  eexists. split; [reflexivity|]. simpl. split; [done|]. split; [done|].
  unfold classify_exception.
  repeat (match goal with
          | |- context [Str.contains ?a ?b] => destruct (Str.contains a b)
          end; simpl; try tauto).
Qed.

(** X14. [get_graph_service] constructs the service at most once: after a
    call that returned a service, every further call returns that service
    and changes nothing, without running the constructor; a call whose
    construction raised leaves the singleton unset. *)
Theorem get_graph_service_constructs_once {W X}
    (construct construct' : M W (GraphService X)) p :
  match get_graph_service construct p with
  | (inr svc, p') =>
      snd p' = Some svc /\
      get_graph_service construct' p' = (inr svc, p')
  | (inl exc, p') => snd p = None /\ snd p' = None
  end.
Proof.
  unfold get_graph_service. destruct p as [w [svc|]]; simpl.
  - done.
  - destruct (construct w) as [[exc|svc] w']; simpl; done.
Qed.

(** ** More of [cob_demo_agent/sre/booking_agent/tools.py] *)
From Stdlib Require Import Sorted.

Module ToolsMore.
Import Tools.

(** [ORDER BY time ASC] on text: byte-wise order. *)
Fixpoint insert_time (t : string) (l : list string) : list string :=
  match l with
  | [] => [t]
  | x :: r => if String.leb t x then t :: l else x :: insert_time t r
  end.

Definition order_by_time (l : list string) : list string :=
  fold_right insert_time [] l.

(** [WHERE service=? AND date=? AND status='free'] *)
Definition free_on (service_ date_ : string) (r : Appointment) : bool :=
  String.eqb (service r) service_ && String.eqb (date r) date_ && is_free r.

Definition core_list_available_slots (db : Table) (service_ date_ : string)
    : list string :=
  order_by_time (map time (List.filter (free_on service_ date_) db)).

(** The [@tool] wrappers. *)
Definition list_available_slots (db : Table) (service_ date_ : string) : string :=
  let times := core_list_available_slots db service_ date_ in
  match times with
  | [] => "No available times found for that service/date."
  | _ => "Available times:" ++ nl ++ String.concat nl times
  end%string.

Definition check_slot_availability (db : Table) (service_ date_ time_ : string)
    : string :=
  core_check_slot_availability db service_ date_ time_.



(** Ascending order of the listed times. *)
Definition time_le (a b : string) : Prop := String.leb a b = true.

Lemma insert_time_perm t l : Permutation (insert_time t l) (t :: l).
Proof.
  induction l as [|x r IH]; simpl; [done|].
  destruct (String.leb t x); [done|].
  rewrite IH. apply perm_swap.
Qed.

Lemma insert_time_hd t a l :
  time_le a t -> HdRel time_le a l -> HdRel time_le a (insert_time t l).
Proof.
  intros Hat Hl. destruct l as [|x r]; simpl; [by constructor|].
  destruct (String.leb t x); constructor; [done|].
  by inversion Hl.
Qed.

Lemma insert_time_sorted t l :
  Sorted time_le l -> Sorted time_le (insert_time t l).
Proof.
  induction 1 as [|x r Hr IH Hhd]; simpl; [by repeat constructor|].
  destruct (String.leb t x) eqn:Htx.
  - constructor; [by constructor|]. by constructor.
  - constructor; [done|]. apply insert_time_hd; [|done].
    unfold time_le. destruct (String.leb_total t x) as [H|H]; [congruence|done].
Qed.

Lemma order_by_time_sorted l : Sorted time_le (order_by_time l).
Proof.
  induction l as [|t l IH]; simpl; [constructor|]. by apply insert_time_sorted.
Qed.

Lemma order_by_time_perm l : Permutation (order_by_time l) l.
Proof.
  induction l as [|t l IH]; simpl; [done|].
  rewrite insert_time_perm. by constructor.
Qed.

(** X15. [core_list_available_slots] answers with the times of exactly the
    free rows of the service and date, each as often as it has such rows,
    in ascending order. *)
Theorem core_list_available_slots_sorted db service_ date_ :
  Sorted time_le (core_list_available_slots db service_ date_) /\
  Permutation (core_list_available_slots db service_ date_)
    (map time (List.filter (free_on service_ date_) db)) /\
  (forall t, In t (core_list_available_slots db service_ date_) <->
     exists r, In r db /\ slot_matches service_ date_ t r = true /\
               status r = "free"%string).
Proof.
  unfold core_list_available_slots. split; [apply order_by_time_sorted|].
  split; [apply order_by_time_perm|]. intros t.
  rewrite <- !list_elem_of_In, (order_by_time_perm _), !list_elem_of_In.
  rewrite in_map_iff. unfold free_on, slot_matches, is_free. split.
  - intros (r & <- & [Hin H]%filter_In).
    apply andb_true_iff in H as [[Hs Hd]%andb_true_iff Hf].
    exists r. rewrite Hs, Hd, String.eqb_refl. simpl.
    split; [done|]. split; [done|]. by apply String.eqb_eq.
  - intros (r & Hin & H & Hf).
    apply andb_true_iff in H as [[Hs Hd]%andb_true_iff Ht].
    exists r. split; [by apply String.eqb_eq|]. apply filter_In.
    split; [done|]. rewrite Hs, Hd. simpl. by apply String.eqb_eq.
Qed.

Section Booking.
Variables (service_ date_ time_ customer_name_ phone_ now : string).

Abbreviation booked db :=
  (core_book_slot db service_ date_ time_ customer_name_ phone_ now).


Lemma core_book_slot_table db :
  snd (booked db) =
  fst (update_free db service_ date_ time_ customer_name_ phone_ now).
Proof.
  unfold core_book_slot.
  destruct (update_free db _ _ _ _ _ _) as [db' updated]. simpl.
  destruct (updated =? 1); [done|].
  by destruct (String.eqb _ "booked").
Qed.



Lemma check_after_update db s d t :
  core_check_slot_availability
    (fst (update_free db service_ date_ time_ customer_name_ phone_ now)) s d t =
  match List.find (slot_matches s d t) db with
  | None => "not_found"
  | Some row =>
      if slot_matches service_ date_ time_ row && is_free row then "booked"
      else if String.eqb (status row) "free" then "available" else "booked"
  end%string.
Proof.
  unfold core_check_slot_availability, update_free. cbn [fst].
  induction db as [|r l IH]; [done|]. cbn [map List.find].
  destruct (slot_matches service_ date_ time_ r && is_free r) eqn:Hhit.
  - change (slot_matches s d t (booked_by customer_name_ phone_ now r))
      with (slot_matches s d t r).
    destruct (slot_matches s d t r); [|apply IH]. by rewrite Hhit.
  - destruct (slot_matches s d t r); [|apply IH]. by rewrite Hhit.
Qed.

(** X17. A booking attempt for one slot does not change what
    [core_check_slot_availability] answers for any other slot. *)
Theorem booking_leaves_other_slots db s d t :
  (s, d, t) <> (service_, date_, time_) ->
  core_check_slot_availability (snd (booked db)) s d t =
  core_check_slot_availability db s d t.
Proof.
  intros Hne. rewrite core_book_slot_table, check_after_update.
  unfold core_check_slot_availability.
  destruct (List.find (slot_matches s d t) db) as [row|] eqn:Hfind; [|done].
  apply find_some in Hfind as [_ Hrow].
  destruct (slot_matches service_ date_ time_ row) eqn:Hm; [|done].
  exfalso. apply Hne. unfold slot_matches in *.
  apply andb_true_iff in Hrow as [[H1 H2]%andb_true_iff H3].
  apply andb_true_iff in Hm as [[H4 H5]%andb_true_iff H6].
  apply String.eqb_eq in H1, H2, H3, H4, H5, H6. congruence.
Qed.

(** X18. On a table with one row per key, what
    [core_check_slot_availability] answers decides the booking: "available"
    gives "success", after which the check answers "booked"; "booked" and
    "not_found" are answered again by [core_book_slot], which then leaves
    the table as it is. *)
Theorem check_decides_booking db :
  unique_slots db ->
  let answer := core_check_slot_availability db service_ date_ time_ in
  (answer = "available"%string ->
   fst (booked db) = "success"%string /\
   core_check_slot_availability (snd (booked db)) service_ date_ time_
     = "booked"%string) /\
  (answer <> "available"%string -> booked db = (answer, db)).
Proof.
  intros Hu. cbv zeta.
  destruct (List.find (slot_matches service_ date_ time_) db) as [row|] eqn:Hfind.
  - apply find_some in Hfind as [Hin Hrow].
    destruct (ToolsFacts.unique_split service_ date_ time_ db row Hu Hin Hrow)
      as (pre & post & -> & Hpre & Hpost).
    rewrite ToolsFacts.core_book_slot_split by done.
    rewrite (ToolsFacts.check_split service_ date_ time_ pre row post) by done.
    unfold is_free.
    destruct (String.eqb (status row) "free") eqn:Hfree; cbn [fst snd].
    + split; [|done]. intros _. split; [done|].
      by rewrite ToolsFacts.check_split.
    + split; [done|]. done.
  - assert (Hnone : forall x, In x db -> slot_matches service_ date_ time_ x = false).
    { intros x Hx. apply not_true_is_false. intros Hm.
      by eapply find_none in Hfind; [rewrite Hm in Hfind|]. }
    rewrite ToolsFacts.core_book_slot_absent by done.
    unfold core_check_slot_availability. rewrite Hfind. done.
Qed.


End Booking.

(** X20. The [list_available_slots] tool says that no time is available
    exactly when the service has no free row on that date; otherwise its
    answer is the heading followed by the listed times, one per line. *)
Theorem list_available_slots_text db service_ date_ :
  (list_available_slots db service_ date_ =
     "No available times found for that service/date."%string <->
   forall r, In r db -> free_on service_ date_ r = false) /\
  (forall t times, core_list_available_slots db service_ date_ = t :: times ->
     list_available_slots db service_ date_ =
     ("Available times:" ++ nl ++ String.concat nl (t :: times))%string).
Proof.
  unfold list_available_slots. split.
  - pose proof (order_by_time_perm
                  (map time (List.filter (free_on service_ date_) db))) as Hperm.
    fold (core_list_available_slots db service_ date_) in Hperm.
    destruct (core_list_available_slots db service_ date_) as [|t times].
    + split; [|done]. intros _ r Hin. apply Permutation_nil in Hperm.
      apply not_true_is_false. intros Hfree.
      assert (Hr : In (time r) (map time (List.filter (free_on service_ date_) db))).
      { apply in_map. by apply filter_In. }
      by rewrite Hperm in Hr.
    + split; [done|]. intros Hnone. exfalso.
      assert (Ht : In t (map time (List.filter (free_on service_ date_) db))).
      { apply list_elem_of_In. rewrite <- Hperm. left. }
      apply in_map_iff in Ht as (r & _ & [Hin Hfree]%filter_In).
      rewrite (Hnone r Hin) in Hfree. done.
  - by intros t times ->.
Qed.

End ToolsMore.

(** ** [cob_demo_agent/utils/env.py] and the keys [build_app] requires *)
Module EnvPy.

Definition ValueError (msg : string) : Exn := mkExn "ValueError" msg.

(** [os.getenv(name, default)] over the process environment. *)
Definition getenv (environ : gmap string string) (name : string)
    (default : option string) : option string :=
  match environ !! name with
  | Some v => Some v
  | None => default
  end.

Definition get_env (environ : gmap string string) (name : string)
    (default : option string) (required : bool) : Exn + option string :=
  let val := getenv environ name default in
  if required
     && match val with
        | None => true
        | Some v => String.eqb (Str.strip v) ""
        end
  then inl (ValueError ("Missing required environment variable: " ++ name)%string)
  else inr val.

(** The five [get_env(..., required=True)] reads that open [build_app], in
    their order. *)
Definition REQUIRED_KEYS : list string :=
  ["GOOGLE_API_KEY"; "ROUTER_API_KEY"; "RAG_API_KEY"; "BOOKING_API_KEY";
   "HANDOFF_API_KEY"]%string.

Fixpoint read_required (environ : gmap string string) (names : list string)
    : Exn + list (option string) :=
  match names with
  | [] => inr []
  | name :: rest =>
      match get_env environ name None true with
      | inl exc => inl exc
      | inr v =>
          match read_required environ rest with
          | inl exc => inl exc
          | inr vs => inr (v :: vs)
          end
      end
  end.

Definition build_app_keys (environ : gmap string string)
    : Exn + list (option string) :=
  read_required environ REQUIRED_KEYS.

(** The variable is set to a text that is neither empty nor made of
    whitespace characters only. *)
Definition provided (environ : gmap string string) (name : string) : Prop :=
  exists v, environ !! name = Some v /\ ~ whitespace_only v.

Lemma blank_iff v :
  String.eqb (Str.strip v) "" = true <-> whitespace_only v.
Proof.
  rewrite <- StrFacts.strip_whitespace_only, String.eqb_eq.
  by destruct (Str.strip v).
Qed.

(** X21. [get_env] without [required] never raises and answers with the
    environment's value, or with the default when the variable is unset.
    With [required] it raises a [ValueError] naming the variable when that
    answer would be missing, empty or made of whitespace characters only
    (those of [str.isspace], the ones outside ASCII included), and
    otherwise returns a text that is not. *)
Theorem get_env_required_is_not_blank environ name default :
  get_env environ name default false = inr (getenv environ name default) /\
  (environ !! name <> None -> getenv environ name default = environ !! name) /\
  match get_env environ name default true with
  | inr v =>
      exists s, v = Some s /\ getenv environ name default = Some s /\
                ~ whitespace_only s
  | inl exc =>
      exc = ValueError ("Missing required environment variable: " ++ name)%string /\
      (getenv environ name default = None \/
       exists s, getenv environ name default = Some s /\ whitespace_only s)
  end.
Proof.
  split; [done|]. split.
  - unfold getenv. by destruct (environ !! name).
  - unfold get_env. simpl. destruct (getenv environ name default) as [v|].
    + destruct (String.eqb (Str.strip v) "") eqn:Hb.
      * split; [done|]. right. exists v. split; [done|]. by apply blank_iff.
      * exists v. split; [done|]. split; [done|].
        intros H%blank_iff. congruence.
    + split; [done|]. by left.
Qed.

(** A key set to a no-break space (U+00A0) is refused like an empty one. *)
Example get_env_refuses_no_break_space :
  get_env {[ "ROUTER_API_KEY"%string := Str.text_of_bytes [194; 160]%nat ]}
    "ROUTER_API_KEY" None true =
  inl (ValueError "Missing required environment variable: ROUTER_API_KEY").
Proof. vm_compute. reflexivity. Qed.

Lemma get_env_required_provided environ name :
  match get_env environ name None true with
  | inr v => provided environ name
  | inl exc =>
      exc = ValueError ("Missing required environment variable: " ++ name)%string /\
      ~ provided environ name
  end.
Proof.
  unfold get_env, getenv, provided. simpl.
  destruct (environ !! name) as [v|].
  - destruct (String.eqb (Str.strip v) "") eqn:Hb.
    + split; [done|]. intros (s & [= <-] & Hs). by apply blank_iff in Hb.
    + exists v. split; [done|]. intros H%blank_iff. congruence.
  - split; [done|]. intros (s & [=] & _).
Qed.

Lemma read_required_spec environ names :
  match read_required environ names with
  | inr vs => Forall (provided environ) names
  | inl exc =>
      exists pre name post,
        names = pre ++ name :: post /\
        Forall (provided environ) pre /\
        ~ provided environ name /\
        exc = ValueError ("Missing required environment variable: " ++ name)%string
  end.
Proof.
  induction names as [|name rest IH]; simpl; [constructor|].
  pose proof (get_env_required_provided environ name) as Hn.
  destruct (get_env environ name None true) as [exc|v].
  - destruct Hn as [-> Hn]. by exists [], name, rest.
  - destruct (read_required environ rest) as [exc|vs].
    + destruct IH as (pre & n & post & -> & Hpre & Hmiss & ->).
      exists (name :: pre), n, post. split; [done|]. split; [by constructor|done].
    + by constructor.
Qed.

(** X22. [build_app] gets past its key reads exactly when all five API keys
    are set to texts that are neither empty nor made of whitespace
    characters only; otherwise it raises a [ValueError] that names the
    first key, in the order of the reads, that is not. *)
Theorem build_app_needs_all_keys environ :
  match build_app_keys environ with
  | inr vs => Forall (provided environ) REQUIRED_KEYS
  | inl exc =>
      exists pre name post,
        REQUIRED_KEYS = pre ++ name :: post /\
        Forall (provided environ) pre /\
        ~ provided environ name /\
        exc = ValueError ("Missing required environment variable: " ++ name)%string
  end.
Proof. apply read_required_spec. Qed.

End EnvPy.

(** ** [cob_demo_agent/sre/rag_agent/vectorstore.py] *)
Module VectorStore.

(** An entry of the KB JSON: a dict whose keys may be missing. *)
Record KbItem := mkKbItem {
  it_text : option string;
  it_id : option string;
  it_title : option string;
  it_category : option string;
  it_source_file : option string;
  it_paragraph_index : option Z;
  it_lang : option string;
}.

Record KbDocument := mkKbDocument {
  kb_page_content : string;
  md_id : string;
  md_title : string;
  md_category : string;
  md_source_file : string;
  md_paragraph_index : Z;
  md_lang : string;
}.

(** The body of the [for it in items] loop. *)
Definition kb_docs (items : list KbItem) : list KbDocument :=
  flat_map
    (fun it =>
       let text := Str.strip (get (it_text it) "") in
       if negb (Str.truthy text) then []
       else [mkKbDocument text
               (get (it_id it) "") (get (it_title it) "")
               (get (it_category it) "") (get (it_source_file it) "")
               (get (it_paragraph_index it) 0) (get (it_lang it) "en")])
    items.

(** [ensure_kb_indexed]: the collection is the list of its documents,
    [count] is [vector_store._collection.count()], which may raise, [items]
    is what [_load_kb_items] returns and [add_documents] appends. *)
Definition ensure_kb_indexed (count : list KbDocument -> Exn + Z)
    (items : list KbItem) (collection : list KbDocument) : list KbDocument :=
  let skip :=
    match count collection with
    | inr existing => negb (existing =? 0) && (0 <? existing)
    | inl _ => false
    end in
  if skip then collection
  else
    match kb_docs items with
    | [] => collection
    | docs => collection ++ docs
    end.

Lemma kb_docs_nonempty items :
  Forall (fun d => kb_page_content d <> ""%string) (kb_docs items).
Proof.
  unfold kb_docs. induction items as [|it items IH]; simpl; [constructor|].
  destruct (Str.strip (get (it_text it) "")) eqn:Ht; simpl; [done|].
  constructor; [done|done].
Qed.

(** X23. [ensure_kb_indexed] indexes only entries whose stripped text is not
    empty and never removes a document; it leaves a collection alone whose
    count is positive; and with a count that is the number of documents,
    running it a second time changes nothing. *)
Theorem ensure_kb_indexed_once count items collection :
  let indexed := ensure_kb_indexed count items collection in
  (exists docs, indexed = collection ++ docs /\
     Forall (fun d => kb_page_content d <> ""%string) docs /\
     (docs = [] \/ docs = kb_docs items)) /\
  ((exists n, count collection = inr n /\ 0 < n) -> indexed = collection) /\
  ((forall c, count c = inr (Z.of_nat (length c))) ->
   ensure_kb_indexed count items indexed = indexed).
Proof.
  cbv zeta. split; [|split].
  - unfold ensure_kb_indexed.
    destruct (match count collection with
              | inl _ => false
              | inr existing => negb (existing =? 0) && (0 <? existing)
              end).
    + exists []. rewrite app_nil_r. auto.
    + pose proof (kb_docs_nonempty items) as Hne.
      destruct (kb_docs items) as [|d docs] eqn:Hd.
      * exists []. rewrite app_nil_r. auto.
      * exists (d :: docs). auto.
  - intros (n & Hc & Hn). unfold ensure_kb_indexed. rewrite Hc.
    replace (n =? 0) with false by lia. replace (0 <? n) with true by lia. done.
  - intros Hcount. unfold ensure_kb_indexed. rewrite (Hcount collection).
    destruct collection as [|c cs]; simpl.
    + destruct (kb_docs items) as [|d docs] eqn:Hd.
      * rewrite Hcount. done.
      * rewrite Hcount. done.
    + rewrite Hcount. done.
Qed.

End VectorStore.

(** ** [cob_demo_agent/sre/log_manager/logger.py] *)
Module Logger.

Inductive Handler :=
| StreamHandler (fmt datefmt : string)
| RotatingFileHandler (filename : string) (maxBytes backupCount : Z)
    (encoding fmt datefmt : string).

(** The logging state of the process: the module's flag, the root logger's
    level and handlers, and the file system. *)
Record Logging (F : Type) := mkLogging {
  _LOGGER_INITIALIZED : bool;
  root_level : Z;
  root_handlers : list Handler;
  files : F;
}.
Arguments mkLogging {F}. Arguments _LOGGER_INITIALIZED {F}.
Arguments root_level {F}. Arguments root_handlers {F}. Arguments files {F}.

Definition FMT : string := "%(asctime)s | %(levelname)s | %(name)s | %(message)s".
Definition DATEFMT : string := "%Y-%m-%d %H:%M:%S".

Section Setup.
(** [LOGS_DIR], [str(Path(LOGS_DIR) / "app.log")] and [str(Path(log_file))];
    [Path(d).mkdir(parents=True, exist_ok=True)], which raises when the
    directory cannot be made; the level
    [getattr(logging, level.upper(), logging.INFO)] as [root.setLevel] takes
    it, which raises when the name is an attribute of [logging] that is not
    a level; and the opening of the log file by the constructor of
    [RotatingFileHandler], which raises when the file cannot be opened. *)
Context {F : Type}.
Variables (LOGS_DIR app_log : string) (path_str : string -> string)
  (mkdir : string -> F -> option Exn * F)
  (set_level : string -> Exn + Z)
  (open_log : string -> F -> option Exn * F).

Definition setup_logging (log_file : option string) (level : string)
    (l : Logging F) : (Exn + unit) * Logging F :=
  if _LOGGER_INITIALIZED l then (inr tt, l)
  else
    match mkdir LOGS_DIR (files l) with
    | (Some exc, f1) =>
        (inl exc, mkLogging false (root_level l) (root_handlers l) f1)
    | (None, f1) =>
        let log_path :=
          match log_file with
          | Some f => if Str.truthy f then path_str f else app_log
          | None => app_log
          end in
        match set_level level with
        | inl exc =>
            (inl exc, mkLogging false (root_level l) (root_handlers l) f1)
        | inr lv =>
            let ch := StreamHandler FMT DATEFMT in
            let handlers := (root_handlers l ++ [ch])%list in
            match open_log log_path f1 with
            | (Some exc, f2) => (inl exc, mkLogging false lv handlers f2)
            | (None, f2) =>
                let fh :=
                  RotatingFileHandler log_path (5 * 1024 * 1024) 5 "utf-8"
                    FMT DATEFMT in
                (inr tt, mkLogging true lv (handlers ++ [fh])%list f2)
            end
        end
    end.

(** X24. A call of [setup_logging] that returns has raised the flag, and
    every later call, whatever its arguments, returns at once and leaves
    the logging state as it is. A call that returns with the flag down
    before it has set the level and added, in this order, one console
    handler and one rotating file handler to the root logger. A call that
    raises leaves the flag down, so the next call starts over; it has
    added no handler, or the console handler alone when it is the log file
    that could not be opened. *)
Theorem setup_logging_once log_file level l :
  let res := fst (setup_logging log_file level l) in
  let after := snd (setup_logging log_file level l) in
  (_LOGGER_INITIALIZED l = true -> res = inr tt /\ after = l) /\
  (res = inr tt ->
     _LOGGER_INITIALIZED after = true /\
     forall log_file' level',
       setup_logging log_file' level' after = (inr tt, after)) /\
  (_LOGGER_INITIALIZED l = false -> res = inr tt ->
     set_level level = inr (root_level after) /\
     exists log_path,
       root_handlers after =
         (root_handlers l ++
          [StreamHandler FMT DATEFMT;
           RotatingFileHandler log_path (5 * 1024 * 1024) 5 "utf-8"
             FMT DATEFMT])%list /\
       log_path = match log_file with
                  | Some f => if Str.truthy f then path_str f else app_log
                  | None => app_log
                  end) /\
  (forall exc, res = inl exc ->
     _LOGGER_INITIALIZED l = false /\
     _LOGGER_INITIALIZED after = false /\
     (root_handlers after = root_handlers l \/
      root_handlers after = (root_handlers l ++ [StreamHandler FMT DATEFMT])%list)).
Proof.
  cbv zeta. unfold setup_logging.
  destruct (_LOGGER_INITIALIZED l) eqn:Hinit.
  { simpl. split; [done|]. split; [|split; [done|by intros exc [=]]].
    intros _. split; [done|]. intros f v. by rewrite Hinit. }
  split; [done|].
  destruct (mkdir LOGS_DIR (files l)) as [[exc|] f1].
  { simpl. split; [done|]. split; [done|]. intros e _. auto. }
  destruct (set_level level) as [exc|lv].
  { simpl. split; [done|]. split; [done|]. intros e _. auto. }
  cbv zeta.
  destruct (open_log _ f1) as [[exc|] f2]; simpl.
  { split; [done|]. split; [done|]. intros e _. auto. }
  split; [by intros _|]. split; [|by intros e [=]].
  intros _ _. split; [done|]. eexists. split; [|reflexivity].
  by rewrite <- app_assoc.
Qed.

End Setup.

(** A first call with a log file in a directory that is not there raises
    after the console handler was added; the default call that follows
    succeeds, and the root logger then has two console handlers. *)
Example setup_logging_retry_repeats_console :
  let mkdir (d : string) (f : unit) : option Exn * unit := (None, f) in
  let set_level (name : string) : Exn + Z := inr 20 in
  let open_log (path : string) (f : unit) : option Exn * unit :=
    if String.eqb path "logs/app.log" then (None, f)
    else (Some (mkExn "FileNotFoundError" path), f) in
  let setup :=
    setup_logging "logs" "logs/app.log" (fun f => f) mkdir set_level open_log in
  let l0 := mkLogging false 30 [] tt in
  fst (setup (Some "gone/app.log"%string) "INFO"%string l0) =
    inl (mkExn "FileNotFoundError" "gone/app.log") /\
  fst (setup None "INFO"%string
         (snd (setup (Some "gone/app.log"%string) "INFO"%string l0))) = inr tt /\
  root_handlers
    (snd (setup None "INFO"%string
            (snd (setup (Some "gone/app.log"%string) "INFO"%string l0)))) =
  [StreamHandler FMT DATEFMT; StreamHandler FMT DATEFMT;
   RotatingFileHandler "logs/app.log" (5 * 1024 * 1024) 5 "utf-8" FMT DATEFMT].
Proof. vm_compute. repeat split. Qed.

End Logger.

(** ** [streamlit_chat.py] *)
Module Streamlit.

(** An item of [st.session_state.messages]; the user's items have no
    ["flag"] key. *)
Record Bubble := mkBubble {
  role : string;
  bubble_content : string;
  flag : option bool;
}.

(** [st.session_state]: a key may be absent. *)
Record Session := mkSession {
  ss_thread_id : option string;
  ss_messages : option (list Bubble);
  ss_handoff_locked : option bool;
}.

(** The JSON object the backend answers with. *)
Record Data := mkData {
  d_reply : option string;
  d_handoff_required : option bool;
}.

(** [fresh] is [str(random.randint(100000, 999999))], drawn when needed. *)
Definition ensure_session_state (fresh : string) (ss : Session) : Session :=
  mkSession
    (Some (get (ss_thread_id ss) fresh))
    (Some (get (ss_messages ss) []))
    (Some (get (ss_handoff_locked ss) false)).

Definition NO_REPLY : string := "_(no reply)_".

Definition ERR_PREFIX : string :=
  ("❌ An error occurred while connecting to the backend:" ++ nl ++ nl)%string.

(** What one run of the script is started by. *)
Inductive Event := Idle | NewChat | Typed (user_text : string).

(** The [if user_text:] block; [call_backend] is the backend's answer or the
    exception it raises, for a message and a thread id. *)
Definition on_user_text (call_backend : string -> string -> Exn + Data)
    (user_text : string) (ss : Session) : Session :=
  if negb (Str.truthy user_text) then ss
  else
    let msgs := get (ss_messages ss) [] ++ [mkBubble "user" user_text None] in
    match call_backend user_text (get (ss_thread_id ss) "") with
    | inr data =>
        let reply :=
          Str.strip (match d_reply data with
                     | Some s => if Str.truthy s then s else ""
                     | None => ""
                     end)%string in
        let handoff_required := get (d_handoff_required data) false in
        mkSession (ss_thread_id ss)
          (Some (msgs ++
                 [mkBubble "assistant"
                    (if Str.truthy reply then reply else NO_REPLY)
                    (Some handoff_required)]))
          (if handoff_required then Some true else ss_handoff_locked ss)
    | inl e =>
        mkSession (ss_thread_id ss)
          (Some (msgs ++
                 [mkBubble "assistant" (ERR_PREFIX ++ exn_str e)%string (Some false)]))
          (ss_handoff_locked ss)
    end.

(** One run of the script: the session keys are ensured; the New Chat button
    resets them and reruns; a locked chat stops before the input. *)
Definition script_run (call_backend : string -> string -> Exn + Data)
    (fresh fresh' : string) (ev : Event) (ss : Session) : Session :=
  let ss := ensure_session_state fresh ss in
  match ev with
  | NewChat => mkSession (Some fresh') (Some []) (Some false)
  | Idle => ss
  | Typed user_text =>
      if get (ss_handoff_locked ss) false then ss
      else on_user_text call_backend user_text ss
  end.

(** X25. A chat locked by a handoff stays locked and silent: while
    [handoff_locked] is set, a run started by typed text calls no backend
    and changes nothing, and no run other than New Chat ever clears the lock;
    New Chat starts an empty, unlocked chat under a fresh thread id. *)
Theorem handoff_lock_holds call_backend fresh fresh' ev ss :
  ss_handoff_locked ss = Some true ->
  match ev with
  | NewChat =>
      script_run call_backend fresh fresh' ev ss =
      mkSession (Some fresh') (Some []) (Some false)
  | _ =>
      script_run call_backend fresh fresh' ev ss = ensure_session_state fresh ss /\
      ss_handoff_locked (script_run call_backend fresh fresh' ev ss) = Some true /\
      ss_messages (script_run call_backend fresh fresh' ev ss) =
        Some (get (ss_messages ss) []) /\
      ss_thread_id (script_run call_backend fresh fresh' ev ss) =
        Some (get (ss_thread_id ss) fresh)
  end.
Proof.
  intros Hlock. destruct ev; unfold script_run, ensure_session_state;
    rewrite ?Hlock; simpl; done.
Qed.

Lemma on_user_text_bubbles call_backend user_text ss :
  Str.truthy user_text = true ->
  exists content flagged,
    on_user_text call_backend user_text ss =
      mkSession (ss_thread_id ss)
        (Some (get (ss_messages ss) [] ++
               [mkBubble "user" user_text None;
                mkBubble "assistant" content (Some flagged)]))
        (if flagged then Some true else ss_handoff_locked ss) /\
    content <> ""%string /\
    (flagged = true <->
     exists data, call_backend user_text (get (ss_thread_id ss) "") = inr data /\
                  d_handoff_required data = Some true).
Proof.
  intros Ht. unfold on_user_text. rewrite Ht. simpl.
  destruct (call_backend user_text _) as [e|data].
  - eexists _, false. rewrite <- app_assoc. simpl. split; [done|].
    split; [done|]. split; [done|]. by intros (d & [=] & _).
  - eexists _, (get (d_handoff_required data) false).
    rewrite <- app_assoc. simpl. split; [done|]. split.
    + destruct (Str.truthy (Str.strip _)) eqn:Hr; [|done].
      intros Hs. rewrite Hs in Hr. done.
    + split.
      * intros H. exists data. split; [done|].
        by destruct (d_handoff_required data) as [[]|].
      * intros (d & [= <-] & ->). done.
Qed.

(** X26. In a chat that is not locked, a run started by a non-empty typed
    text appends exactly two bubbles to the history, the user's text and
    then one assistant bubble whose content is never empty, whether the
    backend answered or raised; the thread id stays; and the chat becomes
    locked exactly when the backend answered with [handoff_required] set. *)
Theorem typed_text_adds_two_bubbles call_backend fresh fresh' user_text ss :
  get (ss_handoff_locked ss) false = false ->
  Str.truthy user_text = true ->
  exists content flagged,
    script_run call_backend fresh fresh' (Typed user_text) ss =
      mkSession (Some (get (ss_thread_id ss) fresh))
        (Some (get (ss_messages ss) [] ++
               [mkBubble "user" user_text None;
                mkBubble "assistant" content (Some flagged)]))
        (Some flagged) /\
    content <> ""%string /\
    (flagged = true <->
     exists data,
       call_backend user_text (get (ss_thread_id ss) fresh) = inr data /\
       d_handoff_required data = Some true).
Proof.
  intros Hlock Ht. unfold script_run.
  change (get (ss_handoff_locked (ensure_session_state fresh ss)) false)
    with (get (ss_handoff_locked ss) false).
  rewrite Hlock.
  destruct (on_user_text_bubbles call_backend user_text
              (ensure_session_state fresh ss) Ht)
    as (content & flagged & -> & Hne & Hflag).
  exists content, flagged. simpl in *. split; [|done].
  rewrite Hlock. by destruct flagged.
Qed.

(** [ensure_session_state] fills in the keys that are missing and keeps
    the ones that are there; applied again, with whatever random id, it
    changes nothing. *)
Lemma ensure_session_state_keeps fresh fresh' ss :
  ensure_session_state fresh' (ensure_session_state fresh ss)
    = ensure_session_state fresh ss /\
  (forall t, ss_thread_id ss = Some t ->
     ss_thread_id (ensure_session_state fresh ss) = Some t) /\
  (forall m, ss_messages ss = Some m ->
     ss_messages (ensure_session_state fresh ss) = Some m) /\
  (forall b, ss_handoff_locked ss = Some b ->
     ss_handoff_locked (ensure_session_state fresh ss) = Some b).
Proof.
  unfold ensure_session_state. simpl. split; [done|].
  repeat split; by intros ? ->.
Qed.

End Streamlit.

(** ** Concrete instances of the further properties *)
Module Samples.

Definition cfg_t : Config := mkConfig "t" 20.

(** The first turn of thread "t" under the default deployment. *)
Definition hello_run : (Exn + State) * Sys Script.W :=
  app_invoke Script.default_env (user_input "hello") cfg_t Script.sys0.

Definition result_state (r : Exn + State) : State :=
  match r with
  | inr state => state
  | inl _ => empty_dict
  end.

(** A process whose thread "t" has used up its four tool rounds. *)
Definition exhausted_sys : Sys Script.W :=
  mkSys 0%nat
    (<["t"%string :=
        mkState (Some [mkMessage HumanMessage "book" [] [] (Some "uuid-a"%string)])
          (Some booking) None None None (Some 4) None (Some 0)]> ∅)
    [].

(** A backend that asks for a handoff when the text says "human". *)
Definition backend (text thread : string) : Exn + Streamlit.Data :=
  if Str.contains "human" text
  then inr (Streamlit.mkData (Some "Connecting you.") (Some true))
  else inr (Streamlit.mkData (Some " ") None).

Definition locked_session : Streamlit.Session :=
  Streamlit.mkSession (Some "123456"%string) (Some []) (Some true).

Definition open_session : Streamlit.Session :=
  Streamlit.mkSession (Some "123456"%string) (Some []) (Some false).

End Samples.

Lemma turn_leaves_other_threads_witness :
  checkpoints (snd Samples.hello_run) !! "u"%string =
  checkpoints Script.sys0 !! "u"%string.
Proof.
  apply (turn_leaves_other_threads Script.default_env (user_input "hello")
           Samples.cfg_t Script.sys0 "u"%string).
  simpl. discriminate.
Defined.

Lemma returned_state_is_checkpointed_witness :
  checkpoints (snd Samples.hello_run) !! "t"%string =
  Some (Samples.result_state (fst Samples.hello_run)).
Proof.
  apply (returned_state_is_checkpointed Script.default_env (user_input "hello")
           Samples.cfg_t Script.sys0).
  vm_compute. reflexivity.
Defined.

Lemma successful_turn_follows_route_witness :
  exists nodes,
    node_log (snd Samples.hello_run) = node_log Script.sys0 ++ N_router :: nodes /\
    match route (Samples.result_state (fst Samples.hello_run)) with
    | Some general => nodes = []
    | Some kb => nodes = [N_rag]
    | Some handoff => nodes = [N_handoff]
    | Some booking => Forall loop_node nodes /\ last nodes = Some N_booking_llm
    | None => False
    end.
Proof.
  apply (successful_turn_follows_route Script.default_env (user_input "hello")
           Samples.cfg_t Script.sys0).
  vm_compute. reflexivity.
Defined.

Lemma exhausted_thread_runs_no_tool_witness :
  tool_rounds
    (node_log (snd (app_invoke Script.default_env (user_input "book please")
                      Samples.cfg_t Samples.exhausted_sys))) =
  tool_rounds (node_log Samples.exhausted_sys).
Proof.
  apply (exhausted_thread_runs_no_tool Script.default_env "book please"
           Samples.cfg_t Samples.exhausted_sys).
  vm_compute. discriminate.
Defined.

Lemma default_limit_is_never_reached_witness :
  ~ exceeds_step_limit Script.default_env "book please" "t" Script.sys0 Script.sys0.
Proof.
  apply (default_limit_is_never_reached Script.default_env "book please" "t"
           Script.sys0 Script.sys0).
  - vm_compute. discriminate.
  - vm_compute. discriminate.
Defined.

Lemma router_writes_route_witness :
  exists resolved reply,
    router_node Script.default_env (Script.asked "hello") 0%nat =
      (inr (mkState (if Route_eqb resolved general then Some [AI reply] else None)
              (Some resolved) None None None None None None), 0%nat) /\
    ((0.875 <? confidence_threshold)%float = false \/ general = general ->
     resolved = general /\ reply = "Hello!"%string).
Proof.
  exact (router_writes_route Script.default_env (Script.asked "hello")
           [mkMessage HumanMessage "hello" [] [] (Some "uuid-0"%string)]
           (mkMessage HumanMessage "hello" [] [] (Some "uuid-0"%string))
           0%nat eq_refl eq_refl eq_refl).
Defined.

Lemma rag_node_cites_nonempty_ids_witness :
  exists ids,
    rag_node Script.default_env (Script.asked "opening hours?") 0%nat =
      (inr (mkState
              (Some [mkMessage AIMessage "We open at nine." [] ids None])
              None (Some ids) None None None None None), 0%nat) /\
    ids = ["faq-1"%string].
Proof.
  destruct (rag_node_cites_nonempty_ids Script.default_env
              (Script.asked "opening hours?")
              [mkMessage HumanMessage "opening hours?" [] [] (Some "uuid-0"%string)]
              (mkMessage HumanMessage "opening hours?" [] [] (Some "uuid-0"%string))
              0%nat eq_refl eq_refl
              (mkStructuredResponseRAG "We open at nine."
                 [mkMetaChunk "faq-1" "Hours" "general" "faq.md" 0;
                  mkMetaChunk "" "" "" "" 0])
              0%nat eq_refl) as (ids & Hnode & Hids & _).
  exists ids. split; [exact Hnode|]. rewrite Hids. reflexivity.
Defined.

Lemma response_reason_needs_flag_witness :
  reason_consistent (Samples.result_state (fst Samples.hello_run)) /\
  (r_handoff_required (normalize (Samples.result_state (fst Samples.hello_run)))
     = false ->
   r_handoff_reason (normalize (Samples.result_state (fst Samples.hello_run)))
     = ""%string).
Proof.
  apply (response_reason_needs_flag Script.default_env "hello" Samples.cfg_t
           Script.sys0).
  - intros _. reflexivity.
  - vm_compute. reflexivity.
Defined.

Lemma invoke_negative_retries_witness :
  invoke (Script.flaky_svc 1 (-1)) "hello" "t" (mkHost 0%nat []) =
  (inl TypeError, mkHost 0%nat []).
Proof.
  apply (invoke_negative_retries (Script.flaky_svc 1 (-1))). simpl. lia.
Defined.

Lemma booking_leaves_other_slots_witness :
  Tools.core_check_slot_availability
    (snd (Tools.core_book_slot Script.sample_db "cut" "2025-01-02" "09:00"
            "Bob" "5" "now"))
    "dye" "2025-01-02" "09:00" =
  Tools.core_check_slot_availability Script.sample_db "dye" "2025-01-02" "09:00".
Proof.
  apply (ToolsMore.booking_leaves_other_slots "cut" "2025-01-02" "09:00"
           "Bob" "5" "now" Script.sample_db "dye" "2025-01-02" "09:00").
  discriminate.
Defined.

Lemma sample_db_unique : Tools.unique_slots Script.sample_db.
Proof.
  unfold Tools.unique_slots.
  apply (bool_decide_unpack (NoDup (map Tools.slot_key Script.sample_db))).
  vm_compute. exact I.
Qed.

Lemma check_decides_booking_witness :
  fst (Tools.core_book_slot Script.sample_db "cut" "2025-01-02" "09:00"
         "Bob" "5" "now") = "success"%string /\
  Tools.core_check_slot_availability
    (snd (Tools.core_book_slot Script.sample_db "cut" "2025-01-02" "09:00"
            "Bob" "5" "now"))
    "cut" "2025-01-02" "09:00" = "booked"%string.
Proof.
  apply (proj1 (ToolsMore.check_decides_booking "cut" "2025-01-02" "09:00"
                  "Bob" "5" "now" Script.sample_db sample_db_unique)).
  reflexivity.
Defined.

Lemma handoff_lock_holds_witness :
  Streamlit.script_run Samples.backend "111111" "222222"
    (Streamlit.Typed "hello") Samples.locked_session
  = Streamlit.ensure_session_state "111111" Samples.locked_session /\
  Streamlit.ss_handoff_locked
    (Streamlit.script_run Samples.backend "111111" "222222"
       (Streamlit.Typed "hello") Samples.locked_session) = Some true /\
  Streamlit.ss_messages
    (Streamlit.script_run Samples.backend "111111" "222222"
       (Streamlit.Typed "hello") Samples.locked_session) = Some [] /\
  Streamlit.ss_thread_id
    (Streamlit.script_run Samples.backend "111111" "222222"
       (Streamlit.Typed "hello") Samples.locked_session) = Some "123456"%string.
Proof.
  exact (Streamlit.handoff_lock_holds Samples.backend "111111" "222222"
           (Streamlit.Typed "hello") Samples.locked_session eq_refl).
Defined.

Lemma typed_text_adds_two_bubbles_witness :
  exists content flagged,
    Streamlit.script_run Samples.backend "111111" "222222"
      (Streamlit.Typed "a human please") Samples.open_session =
      Streamlit.mkSession (Some "123456"%string)
        (Some [Streamlit.mkBubble "user" "a human please" None;
               Streamlit.mkBubble "assistant" content (Some flagged)])
        (Some flagged) /\
    content <> ""%string /\
    (flagged = true <->
     exists data,
       Samples.backend "a human please" "123456" = inr data /\
       Streamlit.d_handoff_required data = Some true).
Proof.
  exact (Streamlit.typed_text_adds_two_bubbles Samples.backend "111111" "222222"
           "a human please" Samples.open_session eq_refl eq_refl).
Defined.
